(** * gasolineras-mexico: the data pipeline of [utils.py]

    A shallow embedding of the data-preparation and aggregation code of
    [src/utils.py] (station reconciliation, price cleaning, grouped
    averages, per-station and per-capita ratios, magnitude formatting),
    with the properties of the specification stated over it.

    Numbers.  A pandas float is modelled by an exact rational ([Qc], the
    canonical rationals) or by one of the special values.  A price, volume
    or population cell is a finite number or missing ([option Qc], [None]
    for NaN); the result of a division may also be infinite ([fval]).
    Rounding and overflow of binary floating point are not modelled:
    finite arithmetic is exact, and a zero has no sign.  Where an input
    that reads as an infinity changes what the code does (the price
    cleaner, the population labels), the functions are also given on
    cells of type [fval], with the arithmetic of the infinities.

    Tables.  A DataFrame is the list of its rows, in row order; a row is a
    record with one field per column the code reads.  State names are
    never missing.  A table that the code sorts for display is modelled as
    it is just before [sort_values], which only reorders its rows; the
    charts drawn from the tables are not modelled. *)

From Stdlib Require Import QArith Qcanon Qround ZArith String Ascii.
From stdpp Require Import base numbers list strings pretty.

Local Open Scope Qc_scope.

(* ================================================================== *)
(** * Numbers *)

Module Num.

(** A finite decimal constant [n/d]. *)
Definition dec (n : Z) (d : positive) : Qc := Q2Qc (n # d).

(** The result of a float division. *)
Inductive fval : Type :=
| Fin (q : Qc)
| PInf
| NInf
| NaN.

#[global] Instance fval_eq_dec : EqDecision fval.
Proof. solve_decision. Defined.

(** Comparisons of floats: every comparison with NaN is false. *)
Definition lt_f (a b : option Qc) : bool :=
  match a, b with
  | Some x, Some y => bool_decide (x < y)
  | _, _ => false
  end.

Definition le_f (a b : option Qc) : bool :=
  match a, b with
  | Some x, Some y => bool_decide (x ≤ y)
  | _, _ => false
  end.

Definition ge_f (a b : option Qc) : bool := le_f b a.

(** Python's builtin [min(a, b)] and [max(a, b)] on two arguments: the
    first argument is kept unless the second is strictly smaller
    (respectively larger).  With a NaN first argument the comparison is
    false and the NaN is returned. *)
Definition py_min (a b : option Qc) : option Qc := if lt_f b a then b else a.
Definition py_max (a b : option Qc) : option Qc := if lt_f a b then b else a.

(** Mathematical minimum and maximum of two rationals. *)
Definition Qcmin (x y : Qc) : Qc := if bool_decide (x ≤ y) then x else y.
Definition Qcmax (x y : Qc) : Qc := if bool_decide (x ≤ y) then y else x.

(** NaN-propagating arithmetic on cells. *)
Definition sub_f (a b : option Qc) : option Qc :=
  match a, b with Some x, Some y => Some (x - y) | _, _ => None end.
Definition mul_f (a b : option Qc) : option Qc :=
  match a, b with Some x, Some y => Some (x * y) | _, _ => None end.

(** numpy's true division: a zero divisor gives an infinity of the sign
    of the dividend, and NaN for [0/0]; NaN operands give NaN.  No error
    is raised.  (The zero divisor is [+0].) *)
Definition np_divide (a b : option Qc) : fval :=
  match a, b with
  | Some x, Some y =>
      if bool_decide (y = 0) then
        if bool_decide (x = 0) then NaN
        else if bool_decide (0 < x) then PInf else NInf
      else Fin (x / y)
  | _, _ => NaN
  end.

(** [Series.fillna(v)]. *)
Definition fillna (v : Qc) (c : option Qc) : option Qc :=
  match c with Some _ => c | None => Some v end.

(** [Series.dropna()]: the non-missing values, in order. *)
Definition dropna (col : list (option Qc)) : list Qc := omap id col.

Definition Qcsum (l : list Qc) : Qc := foldr Qcplus 0 l.

(** [Series.sum()]: missing values are skipped; the empty sum is 0. *)
Definition series_sum (col : list (option Qc)) : Qc := Qcsum (dropna col).

(** [Series.mean()]: the mean of the non-missing values, NaN when there
    is none. *)
Definition series_mean (col : list (option Qc)) : option Qc :=
  match dropna col with
  | [] => None
  | xs => Some (Qcsum xs / Qc_of_Z (Z.of_nat (length xs)))
  end.

(** Ascending sort (insertion sort; the order of a sorted list of
    numbers does not depend on the algorithm). *)
Fixpoint insert_sorted (x : Qc) (l : list Qc) : list Qc :=
  match l with
  | [] => [x]
  | y :: l' => if bool_decide (x ≤ y) then x :: l else y :: insert_sorted x l'
  end.

Definition sort (l : list Qc) : list Qc := foldr insert_sorted [] l.

(** [Series.quantile(q)] with the default linear interpolation: over the
    sorted non-missing values [x_0 .. x_(n-1)], at the virtual index
    [h = (n-1) q], the value [x_lo + (x_hi - x_lo) (h - lo)] with
    [lo = floor h] and [hi = min (lo+1) (n-1)].  NaN when there is no
    non-missing value.  The values are finite ([quantile_x] below has the
    infinities) and the interpolation is exact. *)
Definition quantile (col : list (option Qc)) (q : Qc) : option Qc :=
  let xs := sort (dropna col) in
  match xs with
  | [] => None
  | x0 :: _ =>
      let n := length xs in
      let h := Qc_of_Z (Z.of_nat (n - 1)) * q in
      let lo := Z.to_nat (Qfloor h) in
      let hi := Nat.min (lo + 1) (n - 1) in
      let a := nth lo xs x0 in
      let b := nth hi xs x0 in
      Some (a + (b - a) * (h - Qc_of_Z (Z.of_nat lo)))
  end.

End Num.
Export Num.

(* ================================================================== *)
(** * Tables *)

(** The three fuel price columns. *)
Inductive fuel : Type := regular_price | premium_price | diesel_price.

#[global] Instance fuel_eq_dec : EqDecision fuel.
Proof. solve_decision. Defined.

(** The fuel columns in the order of the code's loops. *)
Definition fuels : list fuel := [regular_price; premium_price; diesel_price].

(** A raw cell as read from a CSV file: a number, a text, or empty. *)
Inductive cell : Type :=
| CNum (q : Qc)
| CText (s : string)
| CEmpty.

(** A row of the station table; [C] is the type of a price cell ([cell]
    before [prepare_price_data], [option Qc] after).  [place_id] and
    [municipality_name] are missing in the placeholder rows of the left
    join. *)
Record station_row {C : Type} : Type := mk_station {
  place_id : option string;
  state_name : string;
  municipality_name : option string;
  price_regular : C;
  price_premium : C;
  price_diesel : C
}.
Arguments station_row : clear implicits.
Arguments mk_station {C}.

(** [row[fuel]]. *)
Definition price {C} (f : fuel) (r : station_row C) : C :=
  match f with
  | regular_price => price_regular r
  | premium_price => price_premium r
  | diesel_price => price_diesel r
  end.

(** [row[fuel] = v]. *)
Definition set_price {C} (f : fuel) (v : C) (r : station_row C) : station_row C :=
  match f with
  | regular_price =>
      mk_station (place_id r) (state_name r) (municipality_name r)
                 v (price_premium r) (price_diesel r)
  | premium_price =>
      mk_station (place_id r) (state_name r) (municipality_name r)
                 (price_regular r) v (price_diesel r)
  | diesel_price =>
      mk_station (place_id r) (state_name r) (municipality_name r)
                 (price_regular r) (price_premium r) v
  end.

(** Replace every price cell. *)
Definition map_prices {C D} (g : C → D) (r : station_row C) : station_row D :=
  mk_station (place_id r) (state_name r) (municipality_name r)
             (g (price_regular r)) (g (price_premium r)) (g (price_diesel r)).

(** A row of the population table. *)
Record pop_row : Type := mk_pop {
  entidad_federativa : string;
  population_2024 : cell
}.

(** A row of the sales-volume table. *)
Record vol_row {C : Type} : Type := mk_vol {
  anio : Z;
  vol_entidad : string;
  sub_producto : string;
  volumen_vendido : C
}.
Arguments vol_row : clear implicits.
Arguments mk_vol {C}.

(* ================================================================== *)
(** * pandas primitives *)

Module Frame.

(** [Series.unique()]: the distinct values in order of first appearance. *)
Fixpoint unique {K} `{EqDecision K} (l : list K) : list K :=
  match l with
  | [] => []
  | x :: l' => x :: filter (λ y, y ≠ x) (unique l')
  end.

(** [DataFrame.drop_duplicates(subset=[key])] with the default
    [keep="first"]: a row is dropped when an earlier row has the same key;
    the remaining rows keep their order.  Missing keys are equal to each
    other, as in pandas. *)
Fixpoint drop_duplicates {R K} `{EqDecision K} (key : R → K) (df : list R)
  : list R :=
  match df with
  | [] => []
  | r :: df' => r :: filter (λ r', key r' ≠ key r) (drop_duplicates key df')
  end.

(** The rows of [df] whose key column holds [k]. *)
Definition rows_with {R K} `{EqDecision K} (key : R → K) (k : K) (df : list R)
  : list R :=
  filter (λ r, key r = k) df.

(** [left.merge(right, on=key, how="left")]: every left row, in left
    order, paired with each right row of the same key, in right order, or
    with no row at all (NaN in every right column) when nothing matches. *)
Definition merge_left {L R K} `{EqDecision K} (lkey : L → K) (rkey : R → K)
    (left : list L) (right : list R) : list (L * option R) :=
  left ≫= λ l,
    match rows_with rkey (lkey l) right with
    | [] => [(l, None)]
    | m => (λ r, (l, Some r)) <$> m
    end.

(** [df.groupby(key)[col].agg()] for a key column without missing values:
    one row per key present, holding the aggregate of the rows of that
    key.  (pandas lists the keys sorted; every use below looks the result
    up by key, so the keys are listed here in order of first
    appearance.) *)
Definition groupby {R K V} `{EqDecision K} (key : R → K)
    (agg : list R → V) (df : list R) : list (K * V) :=
  (λ k, (k, agg (rows_with key k df))) <$> unique (key <$> df).

(** [Series.nunique()]: the number of distinct non-missing values. *)
Definition nunique {K} `{EqDecision K} (col : list (option K)) : nat :=
  length (unique (omap id col)).

End Frame.
Export Frame.

(* ================================================================== *)
(** * Data loading and preparation *)

(** [df_pop["Entidad Federativa"].unique()]: the canonical state roster. *)
Definition all_states (df_pop : list pop_row) : list string :=
  unique (entidad_federativa <$> df_pop).

(** The row a left join produces for a state without stations: every
    column but the key is NaN. *)
Definition placeholder {C} (nan : C) (s : string) : station_row C :=
  mk_station None s None nan nan nan.

(** [prepare_station_data]: drop duplicates on [place_id], then left-join
    the state roster with the stations on [state_name].  (The price
    columns the code would create when absent are always present in
    [station_row].) *)
Definition prepare_station_data {C} (nan : C)
    (df_gas : list (station_row C)) (df_pop : list pop_row)
  : list (station_row C) :=
  let df_gas := drop_duplicates place_id df_gas in
  (λ '(s, o), match o with Some r => r | None => placeholder nan s end)
    <$> merge_left id state_name (all_states df_pop) df_gas.

(** The rows the left join lists for state [s]: its stations, or one
    placeholder. *)
Definition state_block {C} (nan : C) (df : list (station_row C)) (s : string)
  : list (station_row C) :=
  match rows_with state_name s df with
  | [] => [placeholder nan s]
  | m => m
  end.
(** The key columns of a row. *)
Definition row_keys {C} (r : station_row C)
  : option string * string * option string :=
  (place_id r, state_name r, municipality_name r).

(** [pd.to_numeric(errors="coerce")] on one cell: a number stays, a text
    is parsed ([parse_number] stands for pandas's parser of numeric
    literals, [None] where the text is not one), anything else is NaN.
    This is the coercion of columns without infinite values; a text that
    pandas reads as an infinity is in the domain of [to_numeric_x]
    below. *)
Definition to_numeric (parse_number : string → option Qc) (c : cell)
  : option Qc :=
  match c with
  | CNum q => Some q
  | CText s => parse_number s
  | CEmpty => None
  end.

(** Defaults of [remove_price_outliers]. *)
Definition lower_percentile : Qc := dec 1 10.
Definition upper_percentile : Qc := dec 999 10.
Definition min_price : Qc := Qc_of_Z 12.
Definition max_price : Qc := Qc_of_Z 35.

(** [effective_lower] and [effective_upper] of a price column. *)
Definition effective_lower (col : list (option Qc)) : option Qc :=
  let lower_bound := quantile col (lower_percentile / Qc_of_Z 100) in
  py_min lower_bound (Some min_price).

Definition effective_upper (col : list (option Qc)) : option Qc :=
  let upper_bound := quantile col (upper_percentile / Qc_of_Z 100) in
  py_max upper_bound (Some max_price).

(** [mask = (df[column] >= effective_lower) & (df[column] <= effective_upper)]
    at one cell. *)
Definition price_mask (lo hi : option Qc) (v : option Qc) : bool :=
  ge_f v lo && le_f v hi.

(** [remove_price_outliers(df, column)] with the default arguments:
    [df.loc[~mask, column] = np.nan] on a copy. *)
Definition remove_price_outliers (df : list (station_row (option Qc)))
    (column : fuel) : list (station_row (option Qc)) :=
  let col := price column <$> df in
  let lo := effective_lower col in
  let hi := effective_upper col in
  (λ r, if price_mask lo hi (price column r) then r
        else set_price column None r) <$> df.

(** [prepare_price_data]: coerce the three price columns to numbers, then
    filter each of them in turn. *)
Definition prepare_price_data (parse_number : string → option Qc)
    (df_station : list (station_row cell)) : list (station_row (option Qc)) :=
  let df := map_prices (to_numeric parse_number) <$> df_station in
  foldl remove_price_outliers df fuels.

(** [prepare_volume_data]: coerce the volume column to numbers. *)
Definition prepare_volume_data (parse_number : string → option Qc)
    (df_vol : list (vol_row cell)) : list (vol_row (option Qc)) :=
  (λ r, mk_vol (anio r) (vol_entidad r) (sub_producto r)
               (to_numeric parse_number (volumen_vendido r))) <$> df_vol.

(** The outlier policy in the words of the specification, on one price
    column: with [p_lo] and [p_hi] the 0.1th and 99.9th percentiles of the
    non-missing values, [lo = min(p_lo, 12)] and [hi = max(p_hi, 35)],
    every value outside [[lo, hi]] becomes missing and every other cell
    is kept.  A column without a non-missing value has no percentile and
    nothing to filter. *)
Definition spec_outlier_filter (col : list (option Qc)) : list (option Qc) :=
  match quantile col (dec 1 1000), quantile col (dec 999 1000) with
  | Some p_lo, Some p_hi =>
      let lo := Qcmin p_lo (Qc_of_Z 12) in
      let hi := Qcmax p_hi (Qc_of_Z 35) in
      (λ c, match c with
            | Some v => if bool_decide (lo ≤ v ∧ v ≤ hi) then Some v else None
            | None => None
            end) <$> col
  | _, _ => col
  end.

(* ================================================================== *)
(** * Station analysis *)

(** [df_station.groupby("state_name")["place_id"].nunique()]. *)
Definition stations_per_state {C} (df_station : list (station_row C))
  : list (string * nat) :=
  groupby state_name (λ rows, nunique (place_id <$> rows)) df_station.

(** The table of [bar_chart_stations_by_state] before it is sorted for
    display: the roster left-joined with the counts, a missing count
    filled with 0. *)
Definition bar_chart_stations_by_state {C}
    (df_station : list (station_row C)) (df_pop : list pop_row)
  : list (string * nat) :=
  (λ '(s, o), (s, match o with Some (_, n) => n | None => 0%nat end))
    <$> merge_left id fst (all_states df_pop) (stations_per_state df_station).

(* ================================================================== *)
(** * Price analysis *)

(** [df_price[fuel].mean()]. *)
Definition national_avg (fuel : fuel) (df_price : list (station_row (option Qc)))
  : option Qc :=
  series_mean (price fuel <$> df_price).

(** [df_price.groupby("state_name")[fuel].mean()]. *)
Definition state_mean (fuel : fuel) (df_price : list (station_row (option Qc)))
  : list (string * option Qc) :=
  groupby state_name (λ rows, series_mean (price fuel <$> rows)) df_price.

(** The table of one chart of [display_state_price_triplet] before it is
    sorted: the roster left-joined with the state means,
    [average_price] filled with 0. *)
Definition display_state_price_triplet (fuel : fuel)
    (df_price : list (station_row (option Qc))) (df_pop : list pop_row)
  : list (string * option Qc) :=
  (λ '(s, o), (s, fillna 0 (o ≫= snd)))
    <$> merge_left id fst (all_states df_pop) (state_mean fuel df_price).

(** A row of a deviation table. *)
Record deviation_row {K : Type} : Type := mk_deviation {
  dev_key : K;
  average_price : option Qc;
  price_deviation : option Qc;
  deviation_pct : fval
}.
Arguments deviation_row : clear implicits.
Arguments mk_deviation {K}.

(** [(x / national_avg) * 100] on floats. *)
Definition pct_of (x national : option Qc) : fval :=
  match np_divide x national with
  | Fin q => Fin (q * Qc_of_Z 100)
  | v => v
  end.

(** The table of one chart of [display_state_price_deviation_triplet]
    before it is sorted: the filled state averages, computed as in
    [display_state_price_triplet], with their deviation from the national
    average. *)
Definition display_state_price_deviation_triplet (fuel : fuel)
    (df_price : list (station_row (option Qc))) (df_pop : list pop_row)
  : list (deviation_row string) :=
  let national := national_avg fuel df_price in
  (λ '(s, avg),
     let dev := sub_f avg national in
     mk_deviation s avg dev (pct_of dev national))
    <$> display_state_price_triplet fuel df_price df_pop.







(* ================================================================== *)
(** * Volume analysis *)

Local Open Scope string_scope.
Local Open Scope Qc_scope.

(** The [SubProducto] replacement map of [volume_analysis_charts]. *)
Definition replace_sub_producto (s : string) : string :=
  if bool_decide (s = "Diésel Automotriz") then "Diesel"
  else if bool_decide (s = "DUBA") then "Diesel"
  else if bool_decide (s = "Diésel Agricola-Marino") then "Diesel"
  else s.

(** [df_volume_agg]: the rows of 2024 with the diesel sub-products
    collapsed. *)
Definition df_volume_agg (df_volume : list (vol_row (option Qc)))
  : list (vol_row (option Qc)) :=
  (λ r, mk_vol (anio r) (vol_entidad r)
               (replace_sub_producto (sub_producto r)) (volumen_vendido r))
    <$> filter (λ r, anio r = 2024%Z) df_volume.

(** [df.groupby("EntidadFederativa")["Volumen Vendido (litros)"].sum()]. *)
Definition vol_by_state (df : list (vol_row (option Qc)))
  : list (string * Qc) :=
  groupby vol_entidad (λ rows, series_sum (volumen_vendido <$> rows)) df.

(** A row of [merged_state_vol]. *)
Record state_vol_row : Type := mk_state_vol {
  sv_entidad : string;
  sv_volumen : Qc;
  count_stations : nat;
  avg_volume_per_station : fval
}.

(** [np.where(count > 0, volume / count, 0)] at one row. *)
Definition volume_per_station (volume : Qc) (count : nat) : fval :=
  let c := Qc_of_Z (Z.of_nat count) in
  if bool_decide (0 < c) then np_divide (Some volume) (Some c) else Fin 0.

(** [merged_state_vol] before it is sorted: the state volumes of 2024
    left-joined with the station counts, a missing count filled with 0. *)
Definition merged_state_vol {C} (df_volume : list (vol_row (option Qc)))
    (df_station : list (station_row C)) : list state_vol_row :=
  (λ '((s, v), o),
     let n := match o with Some (_, n) => n | None => 0%nat end in
     mk_state_vol s v n (volume_per_station v n))
    <$> merge_left fst fst (vol_by_state (df_volume_agg df_volume))
                   (stations_per_state df_station).

(** [Series.replace] of a comma by nothing ([regex=True]) on one cell: commas are removed
    from a text; other cells are left alone. *)
Fixpoint remove_commas (s : string) : string :=
  match s with
  | EmptyString => EmptyString
  | String a s' =>
      if Ascii.eqb a "," then remove_commas s' else String a (remove_commas s')
  end.

(** [df_pop_clean]: the population column without commas, coerced to
    numbers. *)
Definition df_pop_clean (parse_number : string → option Qc)
    (df_pop : list pop_row) : list (string * option Qc) :=
  (λ r, (entidad_federativa r,
         to_numeric parse_number
           match population_2024 r with
           | CText s => CText (remove_commas s)
           | c => c
           end)) <$> df_pop.

(** A row of [per_capita_data]. *)
Record per_capita_row : Type := mk_per_capita {
  pc_state : string;
  pc_volumen : Qc;
  pc_population : option Qc;
  volume_per_capita : fval
}.

(** [per_capita_data] of [volume_analysis_charts] (totals per state)
    before it is sorted: the state volumes of 2024 left-joined with the
    cleaned population, then [volume / population]. *)
Definition per_capita_data (parse_number : string → option Qc)
    (df_volume : list (vol_row (option Qc))) (df_pop : list pop_row)
  : list per_capita_row :=
  let df_volume_2024 :=
    filter (λ r, anio r = 2024%Z) (df_volume_agg df_volume) in
  (λ '((s, v), o),
     let pop := o ≫= snd in
     mk_per_capita s v pop (np_divide (Some v) pop))
    <$> merge_left fst fst (vol_by_state df_volume_2024)
                   (df_pop_clean parse_number df_pop).

(* ================================================================== *)
(** * Formatting *)

(** Round to the nearest integer, ties to even. *)
Definition round_half_even (q : Qc) : Z :=
  let f := Qfloor q in
  let r := q - Qc_of_Z f in
  if bool_decide (r < dec 1 2) then f
  else if bool_decide (dec 1 2 < r) then (f + 1)%Z
  else if Z.even f then f else (f + 1)%Z.

(** The format [:.2f] of a finite number. *)
Definition fixed2 (q : Qc) : string :=
  let neg := bool_decide (q < 0) in
  let n := round_half_even ((if neg then - q else q) * Qc_of_Z 100) in
  (if neg then "-" else EmptyString)
    +:+ pretty (Z.to_N (n / 100)) +:+ "."
    +:+ (if (n mod 100 <? 10)%Z then "0" else EmptyString)
    +:+ pretty (Z.to_N (n mod 100)).

(** The format [:.2f] of a float. *)
Definition format_2f (x : fval) : string :=
  match x with
  | Fin q => fixed2 q
  | PInf => "inf"
  | NInf => "-inf"
  | NaN => "nan"
  end.

(** [x / c] and the comparisons [x >= c], [x < c] of a float with a
    positive finite constant. *)
Definition div_const (x : fval) (c : Qc) : fval :=
  match x with Fin q => Fin (q / c) | v => v end.

Definition ge_const (x : fval) (c : Qc) : bool :=
  match x with Fin q => bool_decide (c ≤ q) | PInf => true | _ => false end.

Definition lt_const (x : fval) (c : Qc) : bool :=
  match x with Fin q => bool_decide (q < c) | NInf => true | _ => false end.

(** [str.rstrip(c)] for a single character [c]: the trailing run of [c]
    is removed. *)
Fixpoint rstrip (c : ascii) (s : string) : string :=
  match s with
  | EmptyString => EmptyString
  | String a s' =>
      match rstrip c s' with
      | EmptyString => if Ascii.eqb a c then EmptyString else String a EmptyString
      | t => String a t
      end
  end.

Definition e6 : Qc := Qc_of_Z 1000000.
Definition e9 : Qc := Qc_of_Z 1000000000.
Definition e12 : Qc := Qc_of_Z 1000000000000.

(** [format_volume(x, include_label)]: the suffix is part of the f-string
    that [rstrip] is called on. *)
Definition format_volume (x : fval) (include_label : bool) : string :=
  if ge_const x e9 then
    let val := rstrip "." (rstrip "0" (format_2f (div_const x e9) +:+ "B")) in
    if include_label then val +:+ " liters" else val
  else
    let val := rstrip "." (rstrip "0" (format_2f (div_const x e6) +:+ "M")) in
    if include_label then val +:+ " liters" else val.

(** [format_currency(x, include_currency, include_usd)]. *)
Definition format_currency (x : fval) (include_currency include_usd : bool)
  : string :=
  let usd_value := div_const x (Qc_of_Z 20) in
  let finish (mxn usd : string) :=
    if include_usd then
      if include_currency then mxn +:+ " MXN " +:+ usd else mxn +:+ " " +:+ usd
    else
      if include_currency then mxn +:+ " MXN" else mxn in
  if ge_const x e12 then
    let mxn := rstrip "." (rstrip "0" ("$" +:+ format_2f (div_const x e12) +:+ "T")) in
    let usd :=
      if lt_const usd_value e12 then
        rstrip "." (rstrip "0" ("(USD " +:+ format_2f (div_const usd_value e9) +:+ "B)"))
      else
        rstrip "." (rstrip "0" ("(USD " +:+ format_2f (div_const usd_value e12) +:+ "T)")) in
    finish mxn usd
  else if ge_const x e9 then
    let mxn := rstrip "." (rstrip "0" ("$" +:+ format_2f (div_const x e9) +:+ "B")) in
    let usd := rstrip "." (rstrip "0" ("(USD " +:+ format_2f (div_const usd_value e9) +:+ "B)")) in
    finish mxn usd
  else
    let mxn := rstrip "." (rstrip "0" ("$" +:+ format_2f (div_const x e6) +:+ "M")) in
    let usd := rstrip "." (rstrip "0" ("(USD " +:+ format_2f (div_const usd_value e6) +:+ "M)")) in
    finish mxn usd.

(** A parser of plain decimal literals (an optional minus sign, digits,
    at most one decimal point), the instance of [parse_number] used in
    the examples below.  The theorems hold for every parser. *)
Fixpoint scan_decimal (s : string) (num : Z) (scale : positive)
    (seen_point seen_digit : bool) : option Qc :=
  match s with
  | EmptyString => if seen_digit then Some (dec num scale) else None
  | String a s' =>
      let n := nat_of_ascii a in
      if Ascii.eqb a "." then
        if seen_point then None else scan_decimal s' num scale true seen_digit
      else if (48 <=? n)%nat && (n <=? 57)%nat then
        scan_decimal s' (10 * num + Z.of_nat (n - 48))%Z
                     (if seen_point then 10 * scale else scale)%positive
                     seen_point true
      else None
  end.

Definition plain_decimal (s : string) : option Qc :=
  match s with
  | String "-" s' => Qcopp <$> scan_decimal s' 0 1 false false
  | _ => scan_decimal s 0 1 false false
  end.

#[global] Instance cell_eq_dec : EqDecision cell.
Proof. solve_decision. Defined.

#[global] Instance station_row_eq_dec {C} `{EqDecision C} :
  EqDecision (station_row C).
Proof. solve_decision. Defined.

#[global] Instance per_capita_row_eq_dec : EqDecision per_capita_row.
Proof. solve_decision. Defined.

#[global] Instance state_vol_row_eq_dec : EqDecision state_vol_row.
Proof. solve_decision. Defined.

(* ================================================================== *)
(** * Sample tables *)

Module Sample.

(** A station with an id, a state and its three raw price cells. *)
Definition station (id s : string) (reg prem dies : cell) : station_row cell :=
  mk_station (Some id) s (Some s) reg prem dies.

Definition num (n : Z) : cell := CNum (Qc_of_Z n).

(** A roster of two states; the first population is written with
    thousands separators. *)
Definition df_pop : list pop_row :=
  [mk_pop "Jalisco" (CText "8,348,151"); mk_pop "Colima" (num 731391)].

(** Two stations in Jalisco, the second one without regular fuel, and
    one in Colima. *)
Definition df_gas : list (station_row cell) :=
  [station "p1" "Jalisco" (num 20) (num 25) CEmpty;
   station "p2" "Jalisco" (CText "N/D") (num 25) (CText "24.50");
   station "p3" "Colima" (num 22) CEmpty CEmpty].

Definition df_price : list (station_row (option Qc)) :=
  prepare_price_data plain_decimal (prepare_station_data CEmpty df_gas df_pop).

(** Stations in Jalisco only: Colima has no station record. *)
Definition df_gas_jalisco : list (station_row cell) :=
  [station "p1" "Jalisco" (num 20) (num 25) CEmpty].

(** A station row without [place_id], in the second state of the
    roster. *)
Definition df_gas_no_id : list (station_row cell) :=
  [mk_station None "Colima" (Some "Colima") (num 20) CEmpty CEmpty].

(** Five stations with the regular prices 5, 20, 21, 22 and 40. *)
Definition df_five : list (station_row (option Qc)) :=
  (λ '(id, p), mk_station (Some id) "Jalisco" None (Some (Qc_of_Z p)) None None)
    <$> [("a", 5%Z); ("b", 20%Z); ("c", 21%Z); ("d", 22%Z); ("e", 40%Z)].

(** Sales of 2024 in a state whose population is recorded as 0 and in a
    state without stations. *)
Definition df_volume : list (vol_row (option Qc)) :=
  [mk_vol 2024 "Colima" "Regular" (Some (Qc_of_Z 1000));
   mk_vol 2024 "Nayarit" "DUBA" (Some (Qc_of_Z 500))].


End Sample.

(* ================================================================== *)
(** * The price cleaner on prices that may be infinite *)

(** [pd.to_numeric] reads the texts "inf" and "-inf" as infinities, and
    an infinite price changes what the percentiles are.  The functions of
    this section are those of the price cleaner on cells of type [fval],
    which has the infinities; [to_numeric], [quantile],
    [remove_price_outliers] and [prepare_price_data] above are their
    restrictions to finite prices ([prepare_price_data_x_finite]
    below). *)

Definition is_inf (x : fval) : bool :=
  match x with PInf | NInf => true | _ => false end.

Definition of_cell (c : option Qc) : fval :=
  match c with Some q => Fin q | None => NaN end.

Definition to_cell (x : fval) : option Qc :=
  match x with Fin q => Some q | _ => None end.

(** Floating-point addition, negation and subtraction on values that may
    be infinite: [inf - inf] is NaN. *)
Definition add_x (a b : fval) : fval :=
  match a, b with
  | NaN, _ | _, NaN => NaN
  | Fin x, Fin y => Fin (x + y)
  | PInf, NInf | NInf, PInf => NaN
  | PInf, _ | _, PInf => PInf
  | NInf, _ | _, NInf => NInf
  end.

Definition opp_x (a : fval) : fval :=
  match a with
  | Fin x => Fin (- x)
  | PInf => NInf
  | NInf => PInf
  | NaN => NaN
  end.

Definition sub_x (a b : fval) : fval := add_x a (opp_x b).

(** The product with a finite factor [t]: [inf * 0] is NaN. *)
Definition scale_x (a : fval) (t : Qc) : fval :=
  match a with
  | Fin x => Fin (x * t)
  | NaN => NaN
  | PInf => if bool_decide (t = 0) then NaN
            else if bool_decide (0 < t) then PInf else NInf
  | NInf => if bool_decide (t = 0) then NaN
            else if bool_decide (0 < t) then NInf else PInf
  end.

(** Comparisons; every comparison with NaN is false. *)
Definition lt_x (a b : fval) : bool :=
  match a, b with
  | NaN, _ | _, NaN => false
  | Fin x, Fin y => bool_decide (x < y)
  | NInf, NInf => false
  | NInf, _ => true
  | _, NInf => false
  | PInf, _ => false
  | Fin _, PInf => true
  end.

Definition le_x (a b : fval) : bool :=
  match a, b with
  | NaN, _ | _, NaN => false
  | Fin x, Fin y => bool_decide (x ≤ y)
  | NInf, _ => true
  | _, NInf => false
  | _, PInf => true
  | PInf, Fin _ => false
  end.

(** Python's [min(a, b)] and [max(a, b)]. *)
Definition py_min_x (a b : fval) : fval := if lt_x b a then b else a.
Definition py_max_x (a b : fval) : fval := if lt_x a b then b else a.

(** [Series.dropna()] and the ascending sort of the remaining values. *)
Definition dropna_x (col : list fval) : list fval :=
  filter (λ v, v ≠ NaN) col.

Fixpoint insert_sorted_x (x : fval) (l : list fval) : list fval :=
  match l with
  | [] => [x]
  | y :: l' => if le_x x y then x :: l else y :: insert_sorted_x x l'
  end.

Definition sort_x (l : list fval) : list fval := foldr insert_sorted_x [] l.

(** numpy's linear interpolation between two neighbours: [a + (b-a) t]
    for [t < 0.5] and [b - (b-a) (1-t)] otherwise.  The two agree on
    finite values; next to an infinity either can be NaN. *)
Definition lerp (a b : fval) (t : Qc) : fval :=
  if bool_decide (t < dec 1 2) then add_x a (scale_x (sub_x b a) t)
  else sub_x b (scale_x (sub_x b a) (1 - t)).

(** [Series.quantile(q)]. *)
Definition quantile_x (col : list fval) (q : Qc) : fval :=
  let xs := sort_x (dropna_x col) in
  match xs with
  | [] => NaN
  | x0 :: _ =>
      let n := length xs in
      let h := Qc_of_Z (Z.of_nat (n - 1)) * q in
      let lo := Z.to_nat (Qfloor h) in
      let hi := Nat.min (lo + 1) (n - 1) in
      lerp (nth lo xs x0) (nth hi xs x0) (h - Qc_of_Z (Z.of_nat lo))
  end.

Definition effective_lower_x (col : list fval) : fval :=
  let lower_bound := quantile_x col (lower_percentile / Qc_of_Z 100) in
  py_min_x lower_bound (Fin min_price).

Definition effective_upper_x (col : list fval) : fval :=
  let upper_bound := quantile_x col (upper_percentile / Qc_of_Z 100) in
  py_max_x upper_bound (Fin max_price).

Definition price_mask_x (lo hi : fval) (v : fval) : bool :=
  le_x lo v && le_x v hi.

(** [remove_price_outliers(df, column)]. *)
Definition remove_price_outliers_x (df : list (station_row fval))
    (column : fuel) : list (station_row fval) :=
  let col := price column <$> df in
  let lo := effective_lower_x col in
  let hi := effective_upper_x col in
  (λ r, if price_mask_x lo hi (price column r) then r
        else set_price column NaN r) <$> df.

(** [pd.to_numeric(errors="coerce")] on one cell; [parse_x] stands for
    pandas's parser of numeric literals, which may return an infinity,
    and NaN where the text is not a number.  (An infinite number in a
    numeric column is the text that reads as it.) *)
Definition to_numeric_x (parse_x : string → fval) (c : cell) : fval :=
  match c with
  | CNum q => Fin q
  | CText s => parse_x s
  | CEmpty => NaN
  end.

(** [prepare_price_data]. *)
Definition prepare_price_data_x (parse_x : string → fval)
    (df_station : list (station_row cell)) : list (station_row fval) :=
  let df := map_prices (to_numeric_x parse_x) <$> df_station in
  foldl remove_price_outliers_x df fuels.

(** A parser of the decimal literals of [plain_decimal] and of the two
    infinities, the instance of [parse_x] used in the examples. *)
Definition extended_decimal (s : string) : fval :=
  if bool_decide (s = "inf") then PInf
  else if bool_decide (s = "-inf") then NInf
  else of_cell (plain_decimal s).

(* ================================================================== *)
(** * Further tables of the dashboard *)

(** The errors the Python code can raise in the functions below. *)
Inductive py_error : Type := ZeroDivisionError | ValueError | OverflowError.

#[global] Instance py_error_eq_dec : EqDecision py_error.
Proof. solve_decision. Defined.

(** [Series.apply(f)] for a function that may raise: the first error
    aborts the call. *)
Fixpoint apply_raising {A B} (f : A → py_error + B) (l : list A)
  : py_error + list B :=
  match l with
  | [] => inr []
  | x :: l' =>
      match f x with
      | inl e => inl e
      | inr y =>
          match apply_raising f l' with
          | inl e => inl e
          | inr ys => inr (y :: ys)
          end
      end
  end.

(** [left.merge(right, on=key)], an inner join: every left row, in left
    order, paired with each right row of the same key. *)
Definition merge_inner {L R K} `{EqDecision K} (lkey : L → K) (rkey : R → K)
    (left : list L) (right : list R) : list (L * R) :=
  left ≫= λ l, (λ r, (l, r)) <$> rows_with rkey (lkey l) right.

(** The format [:.1f] of a finite number. *)
Definition fixed1 (q : Qc) : string :=
  let neg := bool_decide (q < 0) in
  let n := round_half_even ((if neg then - q else q) * Qc_of_Z 10) in
  (if neg then "-" else EmptyString)
    +:+ pretty (Z.to_N (n / 10)) +:+ "." +:+ pretty (Z.to_N (n mod 10)).

(** A comma before every group of three digits, on the reversed digits;
    [k] digits may still follow before the next comma. *)
Fixpoint group_digits (l : list ascii) (k : nat) : list ascii :=
  match l with
  | [] => []
  | a :: l' =>
      match k with
      | O => ","%char :: a :: group_digits l' 2
      | S k' => a :: group_digits l' k'
      end
  end.

(** The format [:,] of a non-negative integer. *)
Definition format_thousands (n : nat) : string :=
  string_of_list_ascii
    (reverse (group_digits (reverse (list_ascii_of_string (pretty n))) 3)).

(** Python's [int(x)] on a finite float: truncation towards zero. *)
Definition py_int (q : Qc) : Z :=
  if bool_decide (q < 0) then (- Qfloor (- q))%Z else Qfloor q.

(** ** Station analysis *)

Definition highlight_states : list string :=
  ["México"; "Ciudad de México"; "Jalisco"; "Veracruz de Ignacio de la Llave";
   "Puebla"; "Chiapas"; "Michoacán"; "Nuevo León"; "Oaxaca"; "Guerrero";
   "Guanajuato"].

(** The population cell after the removal of commas and the coercion to
    a number, which may be infinite. *)
Definition clean_population (parse_x : string → fval) (c : cell) : fval :=
  to_numeric_x parse_x
    match c with
    | CText s => CText (remove_commas s)
    | c => c
    end.

(** The format [:.1f] of a float. *)
Definition format_1f (x : fval) : string :=
  match x with
  | Fin q => fixed1 q
  | PInf => "inf"
  | NInf => "-inf"
  | NaN => "nan"
  end.

(** [format_population(value)] of [scatter_population_vs_stations].  On
    a NaN the comparison is false and [int(nan)] raises [ValueError]; on
    minus infinity the comparison is false and [int(-inf)] raises
    [OverflowError]; plus infinity passes the comparison. *)
Definition format_population (value : fval) : py_error + string :=
  if ge_const value e6 then inr (format_1f (div_const value e6) +:+ "M")
  else
    match div_const value (Qc_of_Z 1000) with
    | Fin q => inr (pretty (py_int q) +:+ "K")
    | NaN => inl ValueError
    | PInf | NInf => inl OverflowError
    end.

(** A row of [df_merged] in [scatter_population_vs_stations]. *)
Record scatter_row : Type := mk_scatter {
  sc_state : string;
  sc_num_stations : nat;
  sc_population : fval;
  text_label : string;
  formatted_population : string;
  formatted_stations : string
}.

(** The table behind the chart of [scatter_population_vs_stations]: the
    station counts left-joined with the population table, the population
    cleaned, and the three label columns. *)
Definition scatter_population_vs_stations {C}
    (parse_x : string → fval)
    (df_station : list (station_row C)) (df_pop : list pop_row)
  : py_error + list scatter_row :=
  let df_merged :=
    (λ '((s, n), o),
       (s, n, match o with
              | Some r => clean_population parse_x (population_2024 r)
              | None => NaN
              end))
      <$> merge_left fst entidad_federativa
                     (stations_per_state df_station) df_pop in
  apply_raising
    (λ '(s, n, pop),
       match format_population pop with
       | inl e => inl e
       | inr fp =>
           inr (mk_scatter s n pop
                  (if bool_decide (s ∈ highlight_states) then s else EmptyString)
                  fp (format_thousands n))
       end)
    df_merged.

(** A price cell is NaN for [dropna] only when it is empty: a text is
    kept. *)
Definition isna (c : cell) : bool :=
  match c with CEmpty => true | _ => false end.

(** [df_station.dropna(subset=[fuel])["place_id"].nunique()]. *)
Definition stations_selling (f : fuel) (df_station : list (station_row cell))
  : nat :=
  nunique (place_id <$> filter (λ r, isna (price f r) = false) df_station).

(** The numbers of [product_availability_stats]: the total and, per
    fuel, the count and the percentage.  The counts are Python integers,
    so a total of 0 raises [ZeroDivisionError]. *)
Definition availability_numbers (df_station : list (station_row cell))
  : py_error + (nat * list (fuel * nat * Qc)) :=
  let total_stations := nunique (place_id <$> df_station) in
  if bool_decide (total_stations = 0%nat) then inl ZeroDivisionError
  else inr (total_stations,
            (λ f, let n := stations_selling f df_station in
                  (f, n, Qc_of_Z (Z.of_nat n) / Qc_of_Z (Z.of_nat total_stations)
                         * Qc_of_Z 100)) <$> fuels).

Definition fuel_label (f : fuel) : string :=
  match f with
  | regular_price => "Regular"
  | premium_price => "Premium"
  | diesel_price => "Diesel"
  end.

(** The lines [product_availability_stats] writes. *)
Definition product_availability_stats (df_station : list (station_row cell))
  : py_error + list string :=
  match availability_numbers df_station with
  | inl e => inl e
  | inr (total_stations, rows) =>
      inr (("**Total Stations: " +:+ format_thousands total_stations
              +:+ "**; out of which, stations selling:")
           :: ((λ '(f, n, pct),
                  "- " +:+ fuel_label f +:+ ": " +:+ format_thousands n
                    +:+ " (" +:+ fixed1 pct +:+ "% coverage)") <$> rows))
  end.

(** [df_station.groupby("state_name")["municipality_name"].nunique()]. *)
Definition mun_per_state {C} (df_station : list (station_row C))
  : list (string * nat) :=
  groupby state_name (λ rows, nunique (municipality_name <$> rows)) df_station.

(** The table of [bar_chart_stations_per_municipality] before it is
    sorted: state, stations, municipalities and their ratio (a division
    of integer columns: 0/0 is NaN, n/0 is infinite). *)
Definition bar_chart_stations_per_municipality {C}
    (df_station : list (station_row C)) : list (string * nat * nat * fval) :=
  (λ '((s, n), (_, m)),
     (s, n, m, np_divide (Some (Qc_of_Z (Z.of_nat n)))
                         (Some (Qc_of_Z (Z.of_nat m)))))
    <$> merge_inner fst fst (stations_per_state df_station)
                    (mun_per_state df_station).

(** ** Volume analysis *)

(** [total_by_fuel] before it is sorted. *)
Definition total_by_fuel (df_volume : list (vol_row (option Qc)))
  : list (string * Qc) :=
  groupby sub_producto (λ rows, series_sum (volumen_vendido <$> rows))
          (df_volume_agg df_volume).



(** [price_map]: the national average price of the three fuels;
    [Series.map] gives NaN for any other sub-product. *)
Definition price_map (df_price : list (station_row (option Qc)))
    (sub : string) : option Qc :=
  if bool_decide (sub = "Regular") then national_avg regular_price df_price
  else if bool_decide (sub = "Premium") then national_avg premium_price df_price
  else if bool_decide (sub = "Diesel") then national_avg diesel_price df_price
  else None.

(** The [Market_Value_2024] column of [volume_2024]. *)
Definition market_value_2024 (df_volume : list (vol_row (option Qc)))
    (df_price : list (station_row (option Qc))) : list (string * option Qc) :=
  (λ '(k, v), (k, mul_f (Some v) (price_map df_price k)))
    <$> total_by_fuel df_volume.

(** [total_market_value]: the sum of the column, NaN skipped. *)
Definition total_market_value (df_volume : list (vol_row (option Qc)))
    (df_price : list (station_row (option Qc))) : Qc :=
  series_sum (snd <$> market_value_2024 df_volume df_price).

(** The 2024 volume sold under the label [sub] once the diesel
    sub-products are collapsed. *)
Definition volume_of (df_volume : list (vol_row (option Qc))) (sub : string)
  : Qc :=
  series_sum (volumen_vendido
                <$> rows_with sub_producto sub (df_volume_agg df_volume)).

(** The raw sub-product labels that count as diesel. *)
Definition diesel_labels : list string :=
  ["Diesel"; "Diésel Automotriz"; "DUBA"; "Diésel Agricola-Marino"].

(** ** Historical volumes *)

(** [df_filtered], [df_national] and [df_states] of
    [historical_volume_chart]. *)
Definition df_filtered (df_volume : list (vol_row (option Qc)))
  : list (vol_row (option Qc)) :=
  filter (λ r, anio r ≠ 2025%Z) df_volume.

Definition df_national (df_volume : list (vol_row (option Qc)))
  : list (Z * Qc) :=
  groupby anio (λ rows, series_sum (volumen_vendido <$> rows))
          (df_filtered df_volume).

Definition df_states (df_volume : list (vol_row (option Qc)))
  : list ((Z * string) * Qc) :=
  groupby (λ r, (anio r, vol_entidad r))
          (λ rows, series_sum (volumen_vendido <$> rows))
          (df_filtered df_volume).

#[global] Instance pop_row_eq_dec : EqDecision pop_row.
Proof. solve_decision. Defined.

#[global] Instance vol_row_eq_dec {C} `{EqDecision C} : EqDecision (vol_row C).
Proof. solve_decision. Defined.

#[global] Instance scatter_row_eq_dec : EqDecision scatter_row.
Proof. solve_decision. Defined.

#[global] Instance deviation_row_eq_dec {K} `{EqDecision K} :
  EqDecision (deviation_row K).
Proof. solve_decision. Defined.

(** More sample tables. *)
Module Sample2.

(** Volume records of three years; 2024 has two diesel sub-products and
    a sub-product that is not a road fuel. *)
Definition df_volume : list (vol_row (option Qc)) :=
  [mk_vol 2024 "Jalisco" "Regular" (Some (Qc_of_Z 3000));
   mk_vol 2024 "Jalisco" "Diésel Automotriz" (Some (Qc_of_Z 1000));
   mk_vol 2024 "Colima" "DUBA" (Some (Qc_of_Z 500));
   mk_vol 2024 "Colima" "Premium" (Some (Qc_of_Z 400));
   mk_vol 2024 "Colima" "Turbosina" (Some (Qc_of_Z 100));
   mk_vol 2023 "Jalisco" "Regular" (Some (Qc_of_Z 7));
   mk_vol 2023 "Colima" "Regular" None;
   mk_vol 2025 "Jalisco" "Regular" (Some (Qc_of_Z 9))].

(** A population table whose second population is not a number. *)
Definition df_pop_text : list pop_row :=
  [mk_pop "Jalisco" (CText "8,348,151"); mk_pop "Colima" (CText "n/d")].

(** A population table whose second population reads as minus
    infinity. *)
Definition df_pop_inf : list pop_row :=
  [mk_pop "Jalisco" (CText "8,348,151"); mk_pop "Colima" (CText "-inf")].


End Sample2.

(* ================================================================== *)
(** * Facts about the pandas primitives *)

Section FrameFacts.
Context {K : Type} `{EqDecision K}.

Lemma elem_of_unique (l : list K) x : x ∈ unique l ↔ x ∈ l.
Proof.
  induction l as [|y l IH]; simpl; [done|].
  rewrite !elem_of_cons, list_elem_of_filter, IH.
  destruct (decide (x = y)); tauto.
Qed.

Lemma NoDup_unique (l : list K) : NoDup (unique l).
Proof.
  induction l as [|y l IH]; simpl; [constructor|].
  constructor; [|by apply NoDup_filter].
  rewrite list_elem_of_filter. tauto.
Qed.

Lemma filter_eq_not_elem_of (k : K) (l : list K) :
  k ∉ l → filter (λ y, y = k) l = [].
Proof.
  induction l as [|y l IH]; [done|].
  rewrite not_elem_of_cons. intros [? ?].
  rewrite filter_cons_False by done. auto.
Qed.

Lemma filter_eq_NoDup (k : K) (l : list K) :
  NoDup l → filter (λ y, y = k) l = if decide (k ∈ l) then [k] else [].
Proof.
  induction 1 as [|y l Hy Hl IH]; [done|].
  destruct (decide (y = k)) as [->|Hne].
  - rewrite filter_cons_True by done.
    rewrite filter_eq_not_elem_of by done.
    rewrite decide_True by (by left). done.
  - rewrite filter_cons_False by done. rewrite IH.
    destruct (decide (k ∈ l)) as [Hin|Hin].
    + rewrite decide_True by (by right). done.
    + rewrite decide_False; [done|].
      rewrite elem_of_cons. intros [?|?]; congruence.
Qed.

(** Looking a key up in a table that lists each key once. *)
Lemma rows_with_keyed {V} (g : K → V) (k : K) (keys : list K) :
  NoDup keys →
  rows_with fst k ((λ k', (k', g k')) <$> keys)
  = if decide (k ∈ keys) then [(k, g k)] else [].
Proof.
  intros Hnd. unfold rows_with.
  transitivity ((λ k', (k', g k')) <$> filter (λ y, y = k) keys).
  - clear Hnd. induction keys as [|y l IH]; [done|]. rewrite fmap_cons.
    destruct (decide (y = k)) as [->|Hne].
    + rewrite !filter_cons_True by done. by rewrite fmap_cons, IH.
    + rewrite !filter_cons_False by done. done.
  - rewrite filter_eq_NoDup by done. by destruct (decide (k ∈ keys)).
Qed.

Lemma rows_with_groupby {R V} (key : R → K) (agg : list R → V)
    (df : list R) (k : K) :
  rows_with fst k (groupby key agg df)
  = if decide (k ∈ key <$> df) then [(k, agg (rows_with key k df))] else [].
Proof.
  unfold groupby.
  rewrite (rows_with_keyed (λ k', agg (rows_with key k' df)))
    by apply NoDup_unique.
  destruct (decide (k ∈ unique (key <$> df))) as [Hin|Hin];
    rewrite elem_of_unique in Hin.
  - by rewrite decide_True.
  - by rewrite decide_False.
Qed.

(** A left join with a grouped table has one row per left row. *)
Lemma merge_left_groupby {L R V} (lkey : L → K) (key : R → K)
    (agg : list R → V) (left : list L) (df : list R) :
  merge_left lkey fst left (groupby key agg df)
  = (λ l, (l, if decide (lkey l ∈ key <$> df)
              then Some (lkey l, agg (rows_with key (lkey l) df))
              else None)) <$> left.
Proof.
  unfold merge_left. induction left as [|l left IH]; [done|].
  rewrite bind_cons, fmap_cons, IH, rows_with_groupby.
  by destruct (decide (lkey l ∈ key <$> df)).
Qed.

Lemma rows_with_nil_iff {R} (key : R → K) (k : K) (df : list R) :
  rows_with key k df = [] ↔ k ∉ key <$> df.
Proof.
  unfold rows_with. induction df as [|r df IH]; simpl.
  - split; [intros _; apply not_elem_of_nil|done].
  - rewrite not_elem_of_cons. destruct (decide (key r = k)) as [Heq|Hne].
    + rewrite filter_cons_True by done. split; [done|]. intros [? _]. congruence.
    + rewrite filter_cons_False by done. rewrite IH. split; [|tauto].
      intros ?. split; [congruence|done].
Qed.

End FrameFacts.

Lemma filter_all {A} (P : A → Prop) `{∀ x, Decision (P x)} (l : list A) :
  (∀ x, x ∈ l → P x) → filter P l = l.
Proof.
  induction l as [|x l IH]; intros HP; [done|].
  rewrite filter_cons_True by (apply HP; by left).
  f_equal. apply IH. intros y Hy. apply HP. by right.
Qed.

Lemma filter_none {A} (P : A → Prop) `{∀ x, Decision (P x)} (l : list A) :
  (∀ x, x ∈ l → ¬ P x) → filter P l = [].
Proof.
  induction l as [|x l IH]; intros HP; [done|].
  rewrite filter_cons_False by (apply HP; by left).
  apply IH. intros y Hy. apply HP. by right.
Qed.

(* ================================================================== *)
(** * The station reconciler *)

Section Reconciler.
Context {C : Type} (nan : C).
Implicit Types (df_gas : list (station_row C)) (df_pop : list pop_row).

Lemma prepare_station_data_blocks df_gas df_pop :
  prepare_station_data nan df_gas df_pop
  = all_states df_pop ≫= state_block nan (drop_duplicates place_id df_gas).
Proof.
  unfold prepare_station_data, merge_left.
  induction (all_states df_pop) as [|s S IH]; [done|].
  rewrite !bind_cons, fmap_app, IH. f_equal.
  unfold state_block, id.
  destruct (rows_with state_name s _) as [|r m]; [done|].
  rewrite <- list_fmap_compose. apply list_fmap_id.
Qed.

Lemma state_block_state df s r : r ∈ state_block nan df s → state_name r = s.
Proof.
  unfold state_block.
  destruct (rows_with state_name s df) as [|r0 m] eqn:E.
  - rewrite list_elem_of_singleton. by intros ->.
  - rewrite <- E. unfold rows_with. rewrite list_elem_of_filter. tauto.
Qed.

Lemma state_block_nonempty df s : state_block nan df s ≠ [].
Proof.
  unfold state_block. by destruct (rows_with state_name s df).
Qed.

Lemma rows_with_blocks df (S : list string) s :
  NoDup S →
  rows_with state_name s (S ≫= state_block nan df)
  = if decide (s ∈ S) then state_block nan df s else [].
Proof.
  unfold rows_with. induction 1 as [|s0 S Hs0 HS IH]; [done|].
  rewrite bind_cons, filter_app, IH.
  destruct (decide (s0 = s)) as [->|Hne].
  - destruct (decide (s ∈ S)); [done|].
    destruct (decide (s ∈ s :: S)) as [_|Hn]; [|by destruct Hn; left].
    rewrite app_nil_r. apply filter_all. apply state_block_state.
  - rewrite filter_none
      by (intros r Hr; apply state_block_state in Hr; congruence).
    destruct (decide (s ∈ S)) as [Hin|Hin].
    + destruct (decide (s ∈ s0 :: S)) as [_|Hn]; [done|by destruct Hn; right].
    + destruct (decide (s ∈ s0 :: S)) as [Hn|_]; [|done].
      apply elem_of_cons in Hn as [?|?]; congruence.
Qed.

Lemma rows_with_prepared df_gas df_pop s :
  s ∈ all_states df_pop →
  rows_with state_name s (prepare_station_data nan df_gas df_pop)
  = state_block nan (drop_duplicates place_id df_gas) s.
Proof.
  intros Hs. rewrite prepare_station_data_blocks.
  rewrite rows_with_blocks by apply NoDup_unique. by rewrite decide_True.
Qed.

Lemma prepared_states df_gas df_pop s :
  s ∈ state_name <$> prepare_station_data nan df_gas df_pop
  ↔ s ∈ all_states df_pop.
Proof.
  rewrite prepare_station_data_blocks, list_elem_of_fmap. split.
  - intros (r & -> & Hr). apply list_elem_of_bind in Hr as (s & Hr & Hs).
    by rewrite (state_block_state _ _ _ Hr).
  - intros Hs.
    destruct (state_block nan (drop_duplicates place_id df_gas) s) as [|r m] eqn:E;
      [by apply state_block_nonempty in E|].
    exists r. split.
    + symmetry. apply (state_block_state (drop_duplicates place_id df_gas)).
      rewrite E. by left.
    + apply list_elem_of_bind. exists s. split; [|done]. rewrite E. by left.
Qed.

End Reconciler.

Lemma elem_of_drop_duplicates {R K} `{EqDecision K} (key : R → K)
    (df : list R) r :
  r ∈ drop_duplicates key df → r ∈ df.
Proof.
  induction df as [|r0 df IH]; simpl; [done|].
  rewrite !elem_of_cons, list_elem_of_filter. tauto.
Qed.

(* ================================================================== *)
(** * Station counts *)

Lemma bar_chart_stations_by_state_rows {C} (df_station : list (station_row C))
    (df_pop : list pop_row) :
  bar_chart_stations_by_state df_station df_pop
  = (λ s, (s, nunique (place_id <$> rows_with state_name s df_station)))
      <$> all_states df_pop.
Proof.
  unfold bar_chart_stations_by_state, stations_per_state.
  rewrite merge_left_groupby, <- list_fmap_compose.
  apply list_fmap_ext. intros _ s _. simpl. unfold id.
  destruct (decide (s ∈ state_name <$> df_station)) as [Hin|Hin]; [done|].
  apply rows_with_nil_iff in Hin. by rewrite Hin.
Qed.

Lemma filter_comm {A} (P Q : A → Prop) `{∀ x, Decision (P x)}
    `{∀ x, Decision (Q x)} (l : list A) :
  filter P (filter Q l) = filter Q (filter P l).
Proof.
  induction l as [|x l IH]; [done|].
  destruct (decide (P x)), (decide (Q x));
    repeat first [ rewrite filter_cons_True by done
                 | rewrite filter_cons_False by done ];
    by rewrite IH.
Qed.

(* ================================================================== *)
(** * Deduplication *)

Section Dedup.
Context {R K : Type} `{EqDecision K} (key : R → K).

(** Of the rows that share a key, the first one is kept and no other. *)
Lemma drop_duplicates_first (df : list R) (k : K) :
  rows_with key k (drop_duplicates key df) = take 1 (rows_with key k df).
Proof.
  unfold rows_with. induction df as [|r df IH]; [done|]. simpl.
  destruct (decide (key r = k)) as [Heq|Hne].
  - rewrite !filter_cons_True by done. simpl. f_equal.
    rewrite take_0. apply filter_none. intros r'.
    rewrite list_elem_of_filter. intros [Hne _]. congruence.
  - rewrite !filter_cons_False by done.
    rewrite list_filter_filter_l by congruence. apply IH.
Qed.

Lemma drop_duplicates_key_inj (df : list R) r r' :
  r ∈ drop_duplicates key df → r' ∈ drop_duplicates key df →
  key r = key r' → r = r'.
Proof.
  induction df as [|r0 df IH]; simpl; [by intros ?%elem_of_nil|].
  rewrite !elem_of_cons, !list_elem_of_filter.
  intros [->|[? ?]] [->|[? ?]] ?; try done; try congruence. by apply IH.
Qed.

Lemma NoDup_drop_duplicates (df : list R) : NoDup (drop_duplicates key df).
Proof.
  induction df as [|r0 df IH]; simpl; [constructor|].
  constructor; [|by apply NoDup_filter].
  rewrite list_elem_of_filter. tauto.
Qed.

(** Rows whose key no other row carries survive deduplication. *)
Lemma filter_drop_duplicates (P : R → Prop) `{∀ r, Decision (P r)}
    (df : list R) :
  NoDup df →
  (∀ r r', r ∈ df → r' ∈ df → P r' → key r = key r' → r = r') →
  filter P (drop_duplicates key df) = filter P df.
Proof.
  induction 1 as [|r df Hr Hnd IH]; intros Hinj; [done|]. simpl.
  assert (filter P (filter (λ r', key r' ≠ key r) (drop_duplicates key df))
          = filter P df) as Hrest.
  { rewrite filter_comm, IH.
    - apply filter_all. intros r'. rewrite list_elem_of_filter.
      intros [HP Hin] Heq. apply Hr.
      rewrite (Hinj r r'); [done|by left|by right|done|done].
    - intros r1 r2 ? ? ? ?. apply Hinj; by try right. }
  destruct (decide (P r)).
  - rewrite !filter_cons_True by done. by rewrite Hrest.
  - rewrite !filter_cons_False by done. done.
Qed.

End Dedup.

(* ================================================================== *)
(** * Idempotence of the reconciler *)

Section Idempotence.
Context {C : Type} (nan : C).
Implicit Types (df : list (station_row C)) (S : list string).

Lemma elem_of_blocks df S r :
  r ∈ S ≫= state_block nan df →
  r ∈ df ∨ ∃ s, r = placeholder nan s.
Proof.
  intros (s & Hr & _)%list_elem_of_bind. revert Hr. unfold state_block.
  destruct (rows_with state_name s df) as [|r0 m] eqn:E.
  - rewrite list_elem_of_singleton. intros ->. right. by exists s.
  - rewrite <- E. unfold rows_with. rewrite list_elem_of_filter. tauto.
Qed.

Lemma NoDup_blocks df S :
  NoDup df → NoDup S → NoDup (S ≫= state_block nan df).
Proof.
  intros Hdf HS. apply NoDup_bind; [| |done].
  - intros s1 s2 r _ _ H1 H2.
    apply state_block_state in H1, H2. congruence.
  - intros s _. unfold state_block.
    destruct (rows_with state_name s df) as [|r0 m] eqn:E.
    + apply NoDup_singleton.
    + rewrite <- E. by apply NoDup_filter.
Qed.

(** One state's block is rebuilt unchanged from the deduplicated
    output. *)
Lemma state_block_rebuilt df S s :
  NoDup S → s ∈ S →
  (∀ r, r ∈ df → is_Some (place_id r)) →
  let D := drop_duplicates place_id df in
  state_block nan (drop_duplicates place_id (S ≫= state_block nan D)) s
  = state_block nan D s.
Proof.
  intros HS Hs Hid D.
  pose proof (rows_with_blocks nan D S s HS) as Hout.
  rewrite decide_True in Hout by done.
  assert (state_block nan D s
          = match rows_with state_name s D with
            | [] => [placeholder nan s]
            | m => m
            end) as HB by done.
  rewrite HB. unfold state_block at 1.
  destruct (rows_with state_name s D) as [|r0 m] eqn:E; rewrite HB in Hout.
  - (* the state has no station: its block is the placeholder *)
    destruct (rows_with state_name s (drop_duplicates _ _)) as [|r1 m1] eqn:E1;
      [done|].
    assert (∀ r, r ∈ r1 :: m1 → r = placeholder nan s) as Hall.
    { intros r. rewrite <- E1. unfold rows_with.
      rewrite list_elem_of_filter. intros [Hst Hr%elem_of_drop_duplicates].
      assert (r ∈ rows_with state_name s (S ≫= state_block nan D)) as Hr'
        by (unfold rows_with; rewrite list_elem_of_filter; done).
      rewrite Hout in Hr'. by apply list_elem_of_singleton in Hr'. }
    assert (NoDup (r1 :: m1)) as Hnd.
    { rewrite <- E1. apply NoDup_filter, NoDup_drop_duplicates. }
    rewrite (Hall r1) by (by left). f_equal.
    destruct m1 as [|r2 m2]; [done|].
    apply NoDup_cons in Hnd as [Hnotin _]. destruct Hnotin.
    rewrite (Hall r1) by (by left).
    rewrite (Hall r2) by (right; by left). by left.
  - (* the state has stations: all of them survive *)
    assert (rows_with state_name s
              (drop_duplicates place_id (S ≫= state_block nan D))
            = r0 :: m) as ->; [|done].
    rewrite <- Hout.
    unfold rows_with. apply filter_drop_duplicates.
    + apply NoDup_blocks; [apply NoDup_drop_duplicates|done].
    + intros r r' Hr Hr' Hst Hkey.
      assert (r' ∈ D) as Hr'D.
      { assert (r' ∈ rows_with state_name s (S ≫= state_block nan D)) as Hin
          by (unfold rows_with; rewrite list_elem_of_filter; done).
        rewrite Hout, <- E in Hin. unfold rows_with in Hin.
        apply list_elem_of_filter in Hin. tauto. }
      destruct (Hid r' (elem_of_drop_duplicates _ _ _ Hr'D)) as [i Hi].
      apply elem_of_blocks in Hr as [HrD|[s0 ->]].
      * by apply (drop_duplicates_key_inj place_id df).
      * simpl in Hkey. congruence.
Qed.

End Idempotence.

(** C9 (amended).  On station tables in which every row carries a
    [place_id], the reconciler is idempotent: applied to its own output it
    returns that output unchanged.  Deduplication keeps, of the rows that
    share a [place_id], the first one in input order. *)
Theorem prepare_station_data_idempotent {C} (nan : C)
    (df_gas : list (station_row C)) (df_pop : list pop_row) :
  (∀ r, r ∈ df_gas → is_Some (place_id r)) →
  let out := prepare_station_data nan df_gas df_pop in
  prepare_station_data nan out df_pop = out
  ∧ ∀ k, rows_with place_id k (drop_duplicates place_id df_gas)
         = take 1 (rows_with place_id k df_gas).
Proof.
  intros Hid out. split; [|intros k; apply drop_duplicates_first].
  unfold out. rewrite !prepare_station_data_blocks.
  pose proof (NoDup_unique (entidad_federativa <$> df_pop)) as HS.
  fold (all_states df_pop) in HS.
  assert (∀ S', (∀ s, s ∈ S' → s ∈ all_states df_pop) →
    S' ≫= state_block nan (drop_duplicates place_id
            (all_states df_pop ≫=
               state_block nan (drop_duplicates place_id df_gas)))
    = S' ≫= state_block nan (drop_duplicates place_id df_gas)) as Hgen.
  { induction S' as [|s S' IH]; intros Hsub; [done|].
    rewrite !bind_cons, IH by (intros; apply Hsub; by right).
    f_equal. apply state_block_rebuilt; [done| |done]. apply Hsub. by left. }
  by apply Hgen.
Qed.

(* ================================================================== *)
(** * Average-price tables *)

Lemma display_state_price_triplet_rows (f : fuel)
    (df_price : list (station_row (option Qc))) (df_pop : list pop_row) :
  display_state_price_triplet f df_price df_pop
  = (λ s, (s, fillna 0 (series_mean
                          (price f <$> rows_with state_name s df_price))))
      <$> all_states df_pop.
Proof.
  unfold display_state_price_triplet, state_mean.
  rewrite merge_left_groupby, <- list_fmap_compose.
  apply list_fmap_ext. intros _ s _. simpl. unfold id.
  destruct (decide (s ∈ state_name <$> df_price)) as [Hin|Hin]; [done|].
  apply rows_with_nil_iff in Hin. by rewrite Hin.
Qed.



(* ================================================================== *)
(** * The price cleaner *)

Lemma py_min_Some (p m : Qc) : py_min (Some p) (Some m) = Some (Qcmin p m).
Proof.
  unfold py_min, Qcmin, lt_f.
  destruct (decide (p ≤ m)) as [Hle|Hnle].
  - rewrite (bool_decide_eq_true_2 (p ≤ m)) by done.
    rewrite bool_decide_eq_false_2; [done|]. by apply Qcle_not_lt.
  - rewrite (bool_decide_eq_false_2 (p ≤ m)) by done.
    rewrite bool_decide_eq_true_2; [done|]. by apply Qcnot_le_lt.
Qed.

Lemma py_max_Some (p m : Qc) : py_max (Some p) (Some m) = Some (Qcmax p m).
Proof.
  unfold py_max, Qcmax, lt_f.
  destruct (decide (p ≤ m)) as [Hle|Hnle].
  - rewrite (bool_decide_eq_true_2 (p ≤ m)) by done.
    destruct (decide (p = m)) as [->|Hne].
    + rewrite bool_decide_eq_false_2; [done|]. apply Qcle_not_lt, Qcle_refl.
    + rewrite bool_decide_eq_true_2; [done|].
      apply Qcnot_le_lt. intros Hge. apply Hne. by apply Qcle_antisym.
  - rewrite (bool_decide_eq_false_2 (p ≤ m)) by done.
    rewrite bool_decide_eq_false_2; [done|].
    intros Hlt. apply Hnle. by apply Qclt_le_weak.
Qed.

Lemma insert_sorted_nonempty x l : insert_sorted x l ≠ [].
Proof. destruct l; simpl; [done|]. by case_bool_decide. Qed.

Lemma sort_nil_inv l : sort l = [] → l = [].
Proof.
  destruct l as [|x l]; [done|]. simpl. intros H.
  by apply insert_sorted_nonempty in H.
Qed.

Lemma quantile_None (col : list (option Qc)) (q : Qc) :
  quantile col q = None ↔ dropna col = [].
Proof.
  unfold quantile. split.
  - destruct (sort (dropna col)) eqn:E; [|done]. intros _. by apply sort_nil_inv.
  - by intros ->.
Qed.

Lemma dropna_nil_inv (col : list (option Qc)) :
  dropna col = [] → col = (λ _, None) <$> col.
Proof.
  unfold dropna. induction col as [|[v|] col IH]; simpl; [done|done|].
  intros H. f_equal. by apply IH.
Qed.

Lemma percentile_fractions :
  lower_percentile / Qc_of_Z 100 = dec 1 1000
  ∧ upper_percentile / Qc_of_Z 100 = dec 999 1000.
Proof. split; apply Qc_is_canon; reflexivity. Qed.

(** The cell-wise filter of the code on one column. *)
Lemma price_mask_spec (col : list (option Qc)) :
  (λ v, if price_mask (effective_lower col) (effective_upper col) v
        then v else None) <$> col
  = spec_outlier_filter col.
Proof.
  unfold spec_outlier_filter, effective_lower, effective_upper.
  destruct percentile_fractions as [-> ->].
  destruct (quantile col (dec 1 1000)) as [p_lo|] eqn:Elo.
  - destruct (quantile col (dec 999 1000)) as [p_hi|] eqn:Ehi.
    + rewrite py_min_Some, py_max_Some. apply list_fmap_ext.
      intros _ [v|] _; [|done]. unfold price_mask, ge_f, le_f, min_price, max_price.
      rewrite <- bool_decide_and. by case_bool_decide.
    + apply quantile_None in Ehi. apply (quantile_None _ (dec 1 1000)) in Ehi.
      congruence.
  - apply quantile_None in Elo. symmetry. rewrite (dropna_nil_inv col Elo) at 1.
    apply list_fmap_ext. by intros _ [v|] _.
Qed.

Lemma set_price_same {C} (f : fuel) (v : C) r : price f (set_price f v r) = v.
Proof. by destruct f. Qed.

Lemma set_price_other {C} (f g : fuel) (v : C) r :
  f ≠ g → price g (set_price f v r) = price g r.
Proof. by destruct f, g. Qed.

Lemma remove_price_outliers_column df (f : fuel) :
  price f <$> remove_price_outliers df f = spec_outlier_filter (price f <$> df).
Proof.
  rewrite <- price_mask_spec. unfold remove_price_outliers.
  rewrite <- !list_fmap_compose. apply list_fmap_ext. intros _ r _. simpl.
  destruct (price_mask _ _ _); [done|]. apply set_price_same.
Qed.

Lemma remove_price_outliers_other df (f g : fuel) :
  f ≠ g → price g <$> remove_price_outliers df f = price g <$> df.
Proof.
  intros Hne. unfold remove_price_outliers.
  rewrite <- !list_fmap_compose. apply list_fmap_ext. intros _ r _. simpl.
  destruct (price_mask _ _ _); [done|]. by apply set_price_other.
Qed.


(* ================================================================== *)
(** * Deviations from the national average *)



Lemma Qcsum_add {A} (a b : A → Qc) (l : list A) :
  Qcsum ((λ x, a x + b x) <$> l) = Qcsum (a <$> l) + Qcsum (b <$> l).
Proof.
  induction l as [|x l IH]; csimpl; [ring|]. rewrite IH. ring.
Qed.


Lemma Qcsum_zero {A} (l : list A) : Qcsum ((λ _, 0) <$> l) = 0.
Proof. induction l as [|x l IH]; csimpl; [done|]. rewrite IH. ring. Qed.


Lemma Qcsum_indicator {K} `{EqDecision K} (k : K) (x : Qc) (S : list K) :
  NoDup S → k ∈ S →
  Qcsum ((λ s, if decide (k = s) then x else 0) <$> S) = x.
Proof.
  induction 1 as [|s S Hs HS IH]; [by intros ?%elem_of_nil|].
  rewrite elem_of_cons, fmap_cons. csimpl. intros [->|Hin].
  - rewrite decide_True by done.
    rewrite (list_fmap_ext _ (λ _, 0) S).
    + rewrite Qcsum_zero. ring.
    + intros _ s' Hs'%list_elem_of_lookup_2. csimpl.
      apply decide_False. congruence.
  - rewrite decide_False by congruence. rewrite IH by done. ring.
Qed.

(** A sum over a table is the sum over the keys of the sums over the
    rows of each key, when the keys are listed once and every row has a
    listed key. *)
Lemma Qcsum_by_key {A K} `{EqDecision K} (key : A → K) (g : A → Qc) (S : list K) (l : list A) :
  NoDup S → (∀ r, r ∈ l → key r ∈ S) →
  Qcsum ((λ s, Qcsum (g <$> rows_with key s l)) <$> S) = Qcsum (g <$> l).
Proof.
  intros HS. unfold rows_with. induction l as [|r l IH]; intros Hin.
  - csimpl. apply Qcsum_zero.
  - rewrite fmap_cons. csimpl.
    rewrite (list_fmap_ext _
               (λ s, (if decide (key r = s) then g r else 0)
                     + Qcsum (g <$> filter (λ r', key r' = s) l)) S).
    + rewrite Qcsum_add, Qcsum_indicator by (done || apply Hin; by left).
      f_equal. apply IH. intros; apply Hin; by right.
    + intros _ s _. csimpl. destruct (decide (key r = s)).
      * rewrite filter_cons_True by done. done.
      * rewrite filter_cons_False by done. ring.
Qed.






Lemma display_state_price_deviation_triplet_rows (f : fuel)
    (df_price : list (station_row (option Qc))) (df_pop : list pop_row) :
  display_state_price_deviation_triplet f df_price df_pop
  = (λ s, let avg := fillna 0 (series_mean
                       (price f <$> rows_with state_name s df_price)) in
          let dev := sub_f avg (national_avg f df_price) in
          mk_deviation s avg dev (pct_of dev (national_avg f df_price)))
      <$> all_states df_pop.
Proof.
  unfold display_state_price_deviation_triplet.
  rewrite display_state_price_triplet_rows, <- list_fmap_compose. done.
Qed.





(* ================================================================== *)
(** * Volume ratios *)

Lemma elem_of_merge_left {L R K} `{EqDecision K} (lkey : L → K) (rkey : R → K)
    (left : list L) (right : list R) l o :
  (l, o) ∈ merge_left lkey rkey left right →
  l ∈ left
  ∧ match o with
    | Some r => r ∈ right ∧ rkey r = lkey l
    | None => lkey l ∉ rkey <$> right
    end.
Proof.
  unfold merge_left. rewrite list_elem_of_bind. intros (l' & Hin & Hl').
  destruct (rows_with rkey (lkey l') right) as [|r0 m] eqn:E.
  - apply list_elem_of_singleton in Hin as [= -> ->]. split; [done|].
    by apply rows_with_nil_iff.
  - rewrite <- E in Hin. apply list_elem_of_fmap in Hin as (r & [= -> ->] & Hr).
    split; [done|]. unfold rows_with in Hr.
    apply list_elem_of_filter in Hr. tauto.
Qed.

Lemma volume_per_station_finite (v : Qc) (n : nat) :
  ∃ q, volume_per_station v n = Fin q.
Proof.
  unfold volume_per_station, np_divide. case_bool_decide as Hc; [|by eexists].
  rewrite bool_decide_eq_false_2; [by eexists|].
  intros Heq. rewrite Heq in Hc. by apply Qclt_not_eq in Hc.
Qed.

(** C10.  In the per-state table of volume per station, a state whose
    station count is zero (in particular a state without any row in the
    station table) has the defined value 0; the ratio of a state is
    always a finite number, never missing and never infinite. *)
Theorem volume_per_station_zero_count {C}
    (df_volume : list (vol_row (option Qc)))
    (df_station : list (station_row C)) (row : state_vol_row) :
  row ∈ merged_state_vol df_volume df_station →
  (count_stations row = 0%nat → avg_volume_per_station row = Fin 0)
  ∧ (sv_entidad row ∉ state_name <$> df_station → count_stations row = 0%nat)
  ∧ (∃ q, avg_volume_per_station row = Fin q).
Proof.
  unfold merged_state_vol, stations_per_state.
  rewrite merge_left_groupby, <- list_fmap_compose, list_elem_of_fmap.
  intros ([s v] & -> & _). simpl. split; [|split].
  - by intros ->.
  - intros Hnot. by rewrite decide_False.
  - apply volume_per_station_finite.
Qed.

(* ================================================================== *)
(** * The all-missing column *)

(** C7 (amended).  When a price column is entirely missing the outlier
    filter returns normally, its two effective bounds are missing (the
    NaN percentile is the first argument of [min] and [max] and is
    returned), every comparison against them is false, and the column
    stays entirely missing. *)
Theorem all_missing_column_bounds (df : list (station_row (option Qc)))
    (f : fuel) :
  dropna (price f <$> df) = [] →
  effective_lower (price f <$> df) = None
  ∧ effective_upper (price f <$> df) = None
  ∧ (∀ v, price_mask (effective_lower (price f <$> df))
                     (effective_upper (price f <$> df)) v = false)
  ∧ price f <$> remove_price_outliers df f = price f <$> df.
Proof.
  intros Hall.
  assert (effective_lower (price f <$> df) = None) as Hlo.
  { unfold effective_lower. by rewrite (proj2 (quantile_None _ _) Hall). }
  assert (effective_upper (price f <$> df) = None) as Hhi.
  { unfold effective_upper. by rewrite (proj2 (quantile_None _ _) Hall). }
  rewrite Hlo, Hhi. split; [done|]. split; [done|]. split.
  - by intros [v|].
  - rewrite remove_price_outliers_column. unfold spec_outlier_filter.
    by rewrite (proj2 (quantile_None _ _) Hall).
Qed.

(* ================================================================== *)
(** * Formatting *)

Lemma rstrip_last (c d : ascii) (s : string) :
  d ≠ c → rstrip c (s +:+ String d EmptyString) = s +:+ String d EmptyString.
Proof.
  intros Hne. induction s as [|a s IH].
  - change (rstrip c (String d EmptyString) = String d EmptyString). simpl.
    by rewrite (proj2 (Ascii.eqb_neq d c)).
  - change (rstrip c (String a (s +:+ String d EmptyString))
            = String a (s +:+ String d EmptyString)).
    simpl. rewrite IH. by destruct s.
Qed.

Lemma append_assoc (s1 s2 s3 : string) :
  (s1 +:+ s2) +:+ s3 = s1 +:+ (s2 +:+ s3).
Proof.
  induction s1 as [|a s1 IH]; [done|].
  change (String a ((s1 +:+ s2) +:+ s3) = String a (s1 +:+ s2 +:+ s3)).
  by rewrite IH.
Qed.

(** The suffix appended before stripping shields the digits. *)
Lemma strip_after_suffix (pre num : string) (d : ascii) :
  d ≠ "0"%char → d ≠ "."%char →
  rstrip "." (rstrip "0" (pre +:+ num +:+ String d EmptyString))
  = pre +:+ num +:+ String d EmptyString.
Proof.
  intros H0 Hp. rewrite <- append_assoc. by rewrite !rstrip_last.
Qed.

(** C4 (what the code returns).  [format_volume] and [format_currency]
    call [rstrip] on a string that already ends with the magnitude
    suffix, so nothing is stripped: the two decimals are always shown.
    [format_volume(1_500_000_000)] is "1.50B liters",
    [format_volume(2_000_000)] is "2.00M liters" and
    [format_currency(1_000_000_000_000, include_currency=True)] is
    "$1.00T MXN". *)
Theorem format_keeps_trailing_zeros :
  format_volume (Fin (Qc_of_Z 1500000000)) true = "1.50B liters"
  ∧ format_volume (Fin (Qc_of_Z 2000000)) true = "2.00M liters"
  ∧ format_currency (Fin (Qc_of_Z 1000000000000)) true false = "$1.00T MXN"
  ∧ ∀ x, format_volume x false
         = if ge_const x e9 then format_2f (div_const x e9) +:+ "B"
           else format_2f (div_const x e6) +:+ "M".
Proof.
  split; [by vm_compute|]. split; [by vm_compute|]. split; [by vm_compute|].
  intros x. unfold format_volume.
  destruct (ge_const x e9).
  - by apply (strip_after_suffix EmptyString).
  - by apply (strip_after_suffix EmptyString).
Qed.

(* ================================================================== *)
(** * The sample of the specification *)

(** C6 (amended).  On the regular prices [5, 20, 21, 22, 40] the 0.1th
    and 99.9th percentiles are 5.06 and 39.928, so the effective bounds
    are [5.06, 39.928]; the values 5 and 40 become missing and 20, 21 and
    22 survive. *)
Theorem five_prices_filtered :
  let col := price regular_price <$> Sample.df_five in
  effective_lower col = Some (dec 506 100)
  ∧ effective_upper col = Some (dec 39928 1000)
  ∧ price regular_price <$> remove_price_outliers Sample.df_five regular_price
    = [None; Some (Qc_of_Z 20); Some (Qc_of_Z 21); Some (Qc_of_Z 22); None].
Proof. cbv zeta. compute_done. Qed.

(** C6 (as stated) fails: the effective bounds of the sample are not
    [12, 35]. *)
Lemma five_prices_bounds_not_12_35 :
  let col := price regular_price <$> Sample.df_five in
  ¬ (effective_lower col = Some (Qc_of_Z 12)
     ∧ effective_upper col = Some (Qc_of_Z 35)).
Proof. cbv zeta. compute_done. Qed.

(** C7 (as stated) fails: the bounds of an entirely missing column are
    not [12, 35]. *)
Lemma all_missing_bounds_not_12_35 :
  let col : list (option Qc) := [None; None; None] in
  ¬ (effective_lower col = Some (Qc_of_Z 12)
     ∧ effective_upper col = Some (Qc_of_Z 35)).
Proof. cbv zeta. compute_done. Qed.

Lemma all_missing_column_bounds_witness :
  let df := remove_price_outliers Sample.df_five premium_price in
  dropna (price premium_price <$> df) = []
  ∧ effective_lower (price premium_price <$> df) = None.
Proof.
  intros df. split; [by vm_compute|].
  apply (all_missing_column_bounds df premium_price). by vm_compute.
Defined.




Lemma volume_per_station_zero_count_witness :
  let row := mk_state_vol "Nayarit" (Qc_of_Z 500) 0 (Fin 0) in
  row ∈ merged_state_vol Sample.df_volume Sample.df_price
  ∧ ∃ q, avg_volume_per_station row = Fin q.
Proof.
  intros row. split; [compute_done|].
  apply (volume_per_station_zero_count Sample.df_volume Sample.df_price row).
  compute_done.
Defined.



(** C9 (as stated) fails: a station row without [place_id] that follows
    a placeholder row is dropped by the second deduplication, and its
    municipality and prices are lost. *)
Lemma second_pass_drops_row_without_id :
  let out := prepare_station_data CEmpty Sample.df_gas_no_id Sample.df_pop in
  prepare_station_data CEmpty out Sample.df_pop ≠ out.
Proof. cbv zeta. compute_done. Qed.

Lemma prepare_station_data_idempotent_witness :
  let out := prepare_station_data CEmpty Sample.df_gas Sample.df_pop in
  (∀ r, r ∈ Sample.df_gas → is_Some (place_id r))
  ∧ prepare_station_data CEmpty out Sample.df_pop = out.
Proof.
  assert (∀ r, r ∈ Sample.df_gas → is_Some (place_id r)) as Hid.
  { intros r Hr. repeat (apply elem_of_cons in Hr as [->|Hr]; [by eexists|]).
    by apply elem_of_nil in Hr. }
  split; [done|].
  by apply (prepare_station_data_idempotent CEmpty Sample.df_gas Sample.df_pop).
Defined.

(* ================================================================== *)
(** * More on the station reconciler *)

(** X1.  The rows of the reconciled table are the deduplicated stations of a
    roster state, and one placeholder for every roster state that no
    deduplicated station belongs to.  A station of a state outside the
    roster is dropped. *)
Theorem prepare_station_data_rows {C} (nan : C)
    (df_gas : list (station_row C)) (df_pop : list pop_row) r :
  r ∈ prepare_station_data nan df_gas df_pop
  ↔ (r ∈ drop_duplicates place_id df_gas ∧ state_name r ∈ all_states df_pop)
    ∨ (∃ s, s ∈ all_states df_pop ∧ r = placeholder nan s
         ∧ ∀ r', r' ∈ drop_duplicates place_id df_gas → state_name r' ≠ s).
Proof.
  rewrite prepare_station_data_blocks, list_elem_of_bind.
  set (D := drop_duplicates place_id df_gas). split.
  - intros (s & Hr & Hs). unfold state_block in Hr.
    destruct (rows_with state_name s D) as [|r0 m] eqn:E.
    + right. exists s. apply list_elem_of_singleton in Hr.
      split; [done|]. split; [done|].
      intros r' Hr' Hst. apply (rows_with_nil_iff state_name s D) in E.
      apply E, list_elem_of_fmap. by exists r'.
    + left. rewrite <- E in Hr. unfold rows_with in Hr.
      apply list_elem_of_filter in Hr as [-> Hr]. done.
  - intros [[Hr Hs]|(s & Hs & -> & Hnone)].
    + exists (state_name r). split; [|done]. unfold state_block.
      assert (r ∈ rows_with state_name (state_name r) D) as Hin
        by (unfold rows_with; by apply list_elem_of_filter).
      destruct (rows_with state_name (state_name r) D);
        [by apply elem_of_nil in Hin|done].
    + exists s. split; [|done]. unfold state_block.
      unfold rows_with. rewrite filter_none; [by left|].
      intros r' Hr'. by apply Hnone.
Qed.

Lemma NoDup_omap_key {R K} (key : R → option K) (l : list R) :
  NoDup l →
  (∀ r r', r ∈ l → r' ∈ l → is_Some (key r) → key r = key r' → r = r') →
  NoDup (omap key l).
Proof.
  induction 1 as [|r l Hr Hnd IH]; intros Hinj; [constructor|]. simpl.
  destruct (key r) as [k|] eqn:Ek.
  - constructor.
    + rewrite list_elem_of_omap. intros (r' & Hr' & Hk).
      apply Hr. rewrite (Hinj r r'); [done|by left|by right|by rewrite Ek|].
      congruence.
    + apply IH. intros r1 r2 ? ? ? ?. apply Hinj; by try right.
  - apply IH. intros r1 r2 ? ? ? ?. apply Hinj; by try right.
Qed.

(** X2.  No two rows of the reconciled table carry the same [place_id]. *)
Theorem prepare_station_data_unique_ids {C} (nan : C)
    (df_gas : list (station_row C)) (df_pop : list pop_row) :
  NoDup (omap place_id (prepare_station_data nan df_gas df_pop)).
Proof.
  rewrite prepare_station_data_blocks. apply NoDup_omap_key.
  - apply NoDup_blocks; [apply NoDup_drop_duplicates|apply NoDup_unique].
  - intros r r' Hr Hr' [k Hk] Heq.
    apply elem_of_blocks in Hr as [Hr|[s ->]]; [|done].
    apply elem_of_blocks in Hr' as [Hr'|[s ->]]; [|simpl in Heq; congruence].
    by apply (drop_duplicates_key_inj place_id df_gas).
Qed.

Lemma nunique_ext {K} `{EqDecision K} (l1 l2 : list (option K)) :
  (∀ k, Some k ∈ l1 ↔ Some k ∈ l2) → nunique l1 = nunique l2.
Proof.
  intros Hext. unfold nunique. apply Permutation_length.
  apply NoDup_Permutation; [apply NoDup_unique..|].
  intros k. rewrite !elem_of_unique, !list_elem_of_omap.
  split; intros ([k'|] & Hin & Hk); simplify_eq/=;
    exists (Some k); (split; [|done]); by apply Hext.
Qed.

(** X3.  When a [place_id] never occurs with two different states, the
    reconciled table counts, for every roster state, as many stations as
    the raw table has distinct ids for that state: deduplication and the
    join lose no station. *)
Theorem prepare_station_data_counts {C} (nan : C)
    (df_gas : list (station_row C)) (df_pop : list pop_row) s :
  (∀ r r', r ∈ df_gas → r' ∈ df_gas → is_Some (place_id r) →
           place_id r = place_id r' → state_name r = state_name r') →
  s ∈ all_states df_pop →
  (s, nunique (place_id <$> rows_with state_name s df_gas))
    ∈ stations_per_state (prepare_station_data nan df_gas df_pop).
Proof.
  intros Hstate Hs. unfold stations_per_state, groupby.
  apply list_elem_of_fmap. exists s. split.
  2:{ apply elem_of_unique. by apply prepared_states. }
  f_equal. rewrite rows_with_prepared by done.
  set (D := drop_duplicates place_id df_gas).
  transitivity (nunique (place_id <$> rows_with state_name s D)).
  - apply nunique_ext. intros k. rewrite !list_elem_of_fmap. split.
    + intros (r & Hk & Hr). unfold rows_with in Hr.
      apply list_elem_of_filter in Hr as [Hst Hr].
      pose proof (drop_duplicates_first place_id df_gas (Some k)) as Hfirst.
      assert (r ∈ rows_with place_id (Some k) df_gas) as Hin
        by (unfold rows_with; by apply list_elem_of_filter).
      destruct (rows_with place_id (Some k) df_gas) as [|r0 m] eqn:E;
        [by apply elem_of_nil in Hin|].
      assert (r0 ∈ rows_with place_id (Some k) df_gas) as Hr0
        by (rewrite E; by left).
      unfold rows_with in Hr0. apply list_elem_of_filter in Hr0 as [Hk0 Hr0].
      assert (r0 ∈ rows_with place_id (Some k) D) as Hr0D
        by (unfold D; rewrite Hfirst; by left).
      unfold rows_with in Hr0D. apply list_elem_of_filter in Hr0D as [_ Hr0D].
      exists r0. split; [done|]. unfold rows_with. apply list_elem_of_filter.
      split; [|done]. rewrite <- Hst. symmetry.
      apply Hstate; [done|done|by rewrite <- Hk|congruence].
    + intros (r & Hk & Hr). unfold rows_with in Hr.
      apply list_elem_of_filter in Hr as [Hst Hr].
      exists r. split; [done|]. unfold rows_with. apply list_elem_of_filter.
      split; [done|]. by apply elem_of_drop_duplicates in Hr.
  - unfold state_block. by destruct (rows_with state_name s D).
Qed.

(* ================================================================== *)
(** * The price cleaner with infinite prices *)

Lemma remove_price_outliers_x_column df (f : fuel) :
  price f <$> remove_price_outliers_x df f
  = (λ v, if price_mask_x (effective_lower_x (price f <$> df))
                          (effective_upper_x (price f <$> df)) v
          then v else NaN) <$> (price f <$> df).
Proof.
  unfold remove_price_outliers_x.
  rewrite <- !list_fmap_compose. apply list_fmap_ext. intros _ r _. simpl.
  destruct (price_mask_x _ _ _); [done|]. apply set_price_same.
Qed.

Lemma remove_price_outliers_x_other df (f g : fuel) :
  f ≠ g → price g <$> remove_price_outliers_x df f = price g <$> df.
Proof.
  intros Hne. unfold remove_price_outliers_x.
  rewrite <- !list_fmap_compose. apply list_fmap_ext. intros _ r _. simpl.
  destruct (price_mask_x _ _ _); [done|]. by apply set_price_other.
Qed.

Lemma remove_price_outliers_x_keys df (f : fuel) :
  row_keys <$> remove_price_outliers_x df f = row_keys <$> df.
Proof.
  unfold remove_price_outliers_x.
  rewrite <- !list_fmap_compose. apply list_fmap_ext. intros _ r _. simpl.
  destruct (price_mask_x _ _ _); [done|]. by destruct f.
Qed.

Lemma map_prices_column {A B} (g : A → B) (f : fuel)
    (df : list (station_row A)) :
  price f <$> (map_prices g <$> df) = g ∘ price f <$> df.
Proof.
  rewrite <- list_fmap_compose. apply list_fmap_ext. intros _ r _.
  by destruct f.
Qed.

(** Each column is filtered on its own: the cleaned column is the
    coerced column after its own filter. *)
Lemma prepare_price_data_x_column (parse_x : string → fval)
    (df_station : list (station_row cell)) (f : fuel) :
  price f <$> prepare_price_data_x parse_x df_station
  = price f <$> remove_price_outliers_x
                  (map_prices (to_numeric_x parse_x) <$> df_station) f.
Proof.
  unfold prepare_price_data_x, fuels. simpl.
  set (df := map_prices (to_numeric_x parse_x) <$> df_station).
  destruct f.
  - by rewrite !remove_price_outliers_x_other by done.
  - rewrite remove_price_outliers_x_other by done.
    rewrite !remove_price_outliers_x_column.
    by rewrite remove_price_outliers_x_other by done.
  - rewrite !remove_price_outliers_x_column.
    by rewrite !remove_price_outliers_x_other by done.
Qed.

Lemma prepare_price_data_x_keys (parse_x : string → fval)
    (df_station : list (station_row cell)) :
  row_keys <$> prepare_price_data_x parse_x df_station
  = row_keys <$> df_station.
Proof.
  unfold prepare_price_data_x, fuels. simpl.
  rewrite !remove_price_outliers_x_keys, <- list_fmap_compose.
  apply list_fmap_ext. by intros _ r _.
Qed.

(** ** Finite columns: the two versions of the cleaner agree *)

Lemma of_to_cell (v : fval) : is_inf v = false → of_cell (to_cell v) = v.
Proof. by destruct v. Qed.

Lemma finite_column (col : list fval) :
  (∀ v, v ∈ col → is_inf v = false) → of_cell <$> (to_cell <$> col) = col.
Proof.
  intros Hfin. rewrite <- list_fmap_compose.
  rewrite <- (list_fmap_id col) at 2. apply list_fmap_ext.
  intros i v Hv. simpl. apply of_to_cell, Hfin.
  by apply list_elem_of_lookup_2 in Hv.
Qed.

Lemma dropna_x_of_cell (c : list (option Qc)) :
  dropna_x (of_cell <$> c) = Fin <$> dropna c.
Proof.
  unfold dropna_x, dropna.
  induction c as [|[v|] c IH]; [done| |].
  - rewrite fmap_cons. simpl. rewrite filter_cons_True by done.
    by rewrite IH.
  - rewrite fmap_cons. simpl. rewrite filter_cons_False by (by intros []).
    by rewrite IH.
Qed.

Lemma insert_sorted_x_Fin (x : Qc) (l : list Qc) :
  insert_sorted_x (Fin x) (Fin <$> l) = Fin <$> insert_sorted x l.
Proof.
  induction l as [|y l IH]; [done|].
  rewrite fmap_cons. simpl. case_bool_decide; [done|].
  rewrite fmap_cons. by rewrite IH.
Qed.

Lemma sort_x_Fin (l : list Qc) : sort_x (Fin <$> l) = Fin <$> sort l.
Proof.
  induction l as [|x l IH]; [done|].
  rewrite fmap_cons. unfold sort_x, sort in *. simpl.
  by rewrite IH, insert_sorted_x_Fin.
Qed.

(** On finite neighbours both branches of numpy's interpolation are the
    exact linear interpolation. *)
Lemma lerp_Fin (a b t : Qc) : lerp (Fin a) (Fin b) t = Fin (a + (b - a) * t).
Proof.
  unfold lerp. case_bool_decide; simpl; f_equal; ring.
Qed.

Lemma quantile_x_of_cell (c : list (option Qc)) (q : Qc) :
  quantile_x (of_cell <$> c) q = of_cell (quantile c q).
Proof.
  unfold quantile_x, quantile. rewrite dropna_x_of_cell, sort_x_Fin.
  destruct (sort (dropna c)) as [|x0 xs]; [done|].
  rewrite fmap_cons. cbv zeta. rewrite <- fmap_cons.
  rewrite length_fmap.
  rewrite !(map_nth Fin). by rewrite lerp_Fin.
Qed.

Lemma py_min_x_of_cell (a : option Qc) (m : Qc) :
  py_min_x (of_cell a) (Fin m) = of_cell (py_min a (Some m)).
Proof.
  destruct a as [x|]; [|done]. unfold py_min_x, py_min. simpl.
  by case_bool_decide.
Qed.

Lemma py_max_x_of_cell (a : option Qc) (m : Qc) :
  py_max_x (of_cell a) (Fin m) = of_cell (py_max a (Some m)).
Proof.
  destruct a as [x|]; [|done]. unfold py_max_x, py_max. simpl.
  by case_bool_decide.
Qed.

Lemma effective_bounds_x_of_cell (c : list (option Qc)) :
  effective_lower_x (of_cell <$> c) = of_cell (effective_lower c)
  ∧ effective_upper_x (of_cell <$> c) = of_cell (effective_upper c).
Proof.
  unfold effective_lower_x, effective_upper_x, effective_lower,
    effective_upper.
  by rewrite !quantile_x_of_cell, py_min_x_of_cell, py_max_x_of_cell.
Qed.

Lemma price_mask_x_of_cell (lo hi v : option Qc) :
  price_mask_x (of_cell lo) (of_cell hi) (of_cell v) = price_mask lo hi v.
Proof.
  unfold price_mask_x, price_mask, ge_f, le_f.
  by destruct lo, hi, v.
Qed.

Lemma remove_price_outliers_x_of_cell (df : list (station_row (option Qc)))
    (f : fuel) :
  remove_price_outliers_x (map_prices of_cell <$> df) f
  = map_prices of_cell <$> remove_price_outliers df f.
Proof.
  unfold remove_price_outliers_x, remove_price_outliers.
  rewrite (map_prices_column of_cell f df), (list_fmap_compose (price f)).
  destruct (effective_bounds_x_of_cell (price f <$> df)) as [-> ->].
  rewrite <- !list_fmap_compose. apply list_fmap_ext. intros _ r _. simpl.
  replace (price f (map_prices of_cell r)) with (of_cell (price f r))
    by (by destruct f).
  rewrite price_mask_x_of_cell.
  destruct (price_mask _ _ _); [done|]. by destruct f, r.
Qed.

(** With a parser that returns no infinity, [prepare_price_data_x] is
    [prepare_price_data]. *)
Lemma prepare_price_data_x_finite (parse_number : string → option Qc)
    (df_station : list (station_row cell)) :
  prepare_price_data_x (of_cell ∘ parse_number) df_station
  = map_prices of_cell <$> prepare_price_data parse_number df_station.
Proof.
  unfold prepare_price_data_x, prepare_price_data, fuels. simpl.
  replace (map_prices (to_numeric_x (of_cell ∘ parse_number)) <$> df_station)
    with (map_prices of_cell
            <$> (map_prices (to_numeric parse_number) <$> df_station)).
  - by rewrite !remove_price_outliers_x_of_cell.
  - rewrite <- list_fmap_compose. apply list_fmap_ext. intros _ r _.
    destruct r as [? ? ? [] [] []]; done.
Qed.

(** The filter of a column without infinite values is the policy of the
    specification. *)
Lemma remove_price_outliers_x_policy df (f : fuel) :
  (∀ r, r ∈ df → is_inf (price f r) = false) →
  price f <$> remove_price_outliers_x df f
  = of_cell <$> spec_outlier_filter (to_cell ∘ price f <$> df).
Proof.
  intros Hfin. rewrite remove_price_outliers_x_column.
  assert (price f <$> df = of_cell <$> (to_cell ∘ price f <$> df)) as Hcol.
  { rewrite (list_fmap_compose (price f)). symmetry. apply finite_column.
    intros v (r & -> & Hr)%list_elem_of_fmap. by apply Hfin. }
  rewrite Hcol.
  destruct (effective_bounds_x_of_cell (to_cell ∘ price f <$> df)) as [-> ->].
  rewrite <- price_mask_spec, <- !list_fmap_compose.
  apply list_fmap_ext. intros _ v _. simpl.
  rewrite price_mask_x_of_cell. by destruct (price_mask _ _ _).
Qed.


Lemma Qcmin_le_r (p m : Qc) : Qcmin p m ≤ m.
Proof. unfold Qcmin. case_bool_decide; [done|apply Qcle_refl]. Qed.

Lemma Qcmax_ge_r (p m : Qc) : m ≤ Qcmax p m.
Proof.
  unfold Qcmax. case_bool_decide as H; [apply Qcle_refl|].
  by apply Qclt_le_weak, Qcnot_le_lt.
Qed.

Lemma spec_outlier_filter_lookup (col : list (option Qc)) i c :
  col !! i = Some c →
  ∃ c', spec_outlier_filter col !! i = Some c'
      ∧ (c' = c ∨ c' = None)
      ∧ ∀ v, c = Some v → min_price ≤ v ≤ max_price → c' = Some v.
Proof.
  intros Hi. unfold spec_outlier_filter.
  destruct (quantile col (dec 1 1000)) as [p_lo|];
    [destruct (quantile col (dec 999 1000)) as [p_hi|]|]; cycle 1.
  - exists c. split; [done|]. by split; [left|].
  - exists c. split; [done|]. by split; [left|].
  - rewrite list_lookup_fmap, Hi. simpl. eexists. split; [done|].
    destruct c as [v|]; [|by split; [left|]].
    case_bool_decide as Hin.
    + by split; [left|intros ? [= <-] _].
    + split; [by right|]. intros ? [= <-] [Hlo Hhi]. destruct Hin. split.
      * eapply Qcle_trans; [apply Qcmin_le_r|done].
      * eapply Qcle_trans; [done|apply Qcmax_ge_r].
Qed.

(** X4.  Cleaning keeps the rows aligned and never invents or alters a
    price: the cleaned cell of a row is its coerced raw cell or missing.
    In a column without an infinite value, a price within the fixed range
    [12, 35] always survives, whatever the other prices of the column
    are. *)
Theorem prepare_price_data_cells (parse_x : string → fval)
    (df_station : list (station_row cell)) i r :
  df_station !! i = Some r →
  ∃ r', prepare_price_data_x parse_x df_station !! i = Some r'
      ∧ row_keys r' = row_keys r
      ∧ ∀ f, (price f r' = to_numeric_x parse_x (price f r)
              ∨ price f r' = NaN)
           ∧ ((∀ r0, r0 ∈ df_station →
                 is_inf (to_numeric_x parse_x (price f r0)) = false) →
              ∀ v, to_numeric_x parse_x (price f r) = Fin v →
                   min_price ≤ v ≤ max_price → price f r' = Fin v).
Proof.
  intros Hi.
  pose proof (prepare_price_data_x_keys parse_x df_station) as Hkeys.
  apply (f_equal (λ l, l !! i)) in Hkeys.
  rewrite !list_lookup_fmap, Hi in Hkeys.
  destruct (prepare_price_data_x parse_x df_station !! i) as [r'|] eqn:Hi';
    [|done].
  assert (row_keys r' = row_keys r) as Hk by (apply (inj Some); exact Hkeys).
  exists r'. split; [done|]. split; [done|].
  intros f.
  pose proof (prepare_price_data_x_column parse_x df_station f) as Hcol.
  assert (price f <$> (map_prices (to_numeric_x parse_x) <$> df_station)
          = to_numeric_x parse_x ∘ price f <$> df_station) as Hco
    by apply map_prices_column.
  split.
  - rewrite remove_price_outliers_x_column, Hco in Hcol.
    apply (f_equal (λ l, l !! i)) in Hcol.
    rewrite !list_lookup_fmap, Hi', Hi in Hcol. simpl in Hcol.
    injection Hcol as ->. destruct (price_mask_x _ _ _); [by left|by right].
  - intros Hfin v Hv Hrange.
    rewrite remove_price_outliers_x_policy in Hcol; cycle 1.
    { intros r1 (r0 & -> & Hr0)%list_elem_of_fmap.
      replace (price f (map_prices (to_numeric_x parse_x) r0))
        with (to_numeric_x parse_x (price f r0)) by (by destruct f).
      by apply Hfin. }
    apply (f_equal (λ l, l !! i)) in Hcol.
    rewrite !list_lookup_fmap, Hi' in Hcol. simpl in Hcol.
    destruct (spec_outlier_filter_lookup
                (to_cell ∘ price f
                   <$> (map_prices (to_numeric_x parse_x) <$> df_station))
                i (Some v))
      as (c' & Hc' & _ & Hkeep).
    { rewrite !list_lookup_fmap, Hi. simpl.
      replace (price f (map_prices (to_numeric_x parse_x) r))
        with (to_numeric_x parse_x (price f r)) by (by destruct f).
      by rewrite Hv. }
    rewrite Hc' in Hcol. simpl in Hcol. injection Hcol as ->.
    by rewrite (Hkeep v eq_refl Hrange).
Qed.



(* ================================================================== *)
(** * More on the price cleaner *)

(** X5.  Filtering two different price columns gives the same table in either
    order: the bounds of a column depend on that column alone. *)
Theorem remove_price_outliers_comm (df : list (station_row (option Qc)))
    (f g : fuel) :
  f ≠ g →
  remove_price_outliers (remove_price_outliers df f) g
  = remove_price_outliers (remove_price_outliers df g) f.
Proof.
  intros Hne. unfold remove_price_outliers at 1 3.
  rewrite (remove_price_outliers_other df f g) by done.
  rewrite (remove_price_outliers_other df g f) by done.
  unfold remove_price_outliers. rewrite <- !list_fmap_compose.
  apply list_fmap_ext. intros _ r _. simpl.
  destruct (price_mask _ _ (price f r)) eqn:Ef,
           (price_mask _ _ (price g r)) eqn:Eg.
  all: rewrite ?set_price_other by done; rewrite ?Ef, ?Eg.
  all: try done.
  by destruct f, g.
Qed.

(* ================================================================== *)
(** * Deviations of states without data *)


(* ================================================================== *)
(** * Stations per municipality *)

Lemma merge_inner_groupby {R K V W} `{EqDecision K} (key : R → K)
    (a : list R → V) (b : list R → W) (df : list R) :
  merge_inner fst fst (groupby key a df) (groupby key b df)
  = (λ k, ((k, a (rows_with key k df)), (k, b (rows_with key k df))))
      <$> unique (key <$> df).
Proof.
  unfold merge_inner. unfold groupby at 1.
  assert (∀ keys, (∀ k, k ∈ keys → k ∈ key <$> df) →
    ((λ k, (k, a (rows_with key k df))) <$> keys)
      ≫= (λ l, (λ r, (l, r)) <$> rows_with fst l.1 (groupby key b df))
    = (λ k, ((k, a (rows_with key k df)), (k, b (rows_with key k df))))
        <$> keys) as Hgen.
  { induction keys as [|k keys IH]; intros Hin; [done|].
    rewrite !fmap_cons, bind_cons, IH by (intros; apply Hin; by right).
    rewrite rows_with_groupby. simpl.
    rewrite decide_True by (apply Hin; by left). done. }
  apply Hgen. intros k. by rewrite elem_of_unique.
Qed.

(** X10.  In the table of average stations per municipality computed from the
    reconciled stations, a roster state without any station has zero
    stations and zero municipalities, and its average is missing (0/0),
    not 0. *)
Theorem stations_per_municipality_empty_state {C} (nan : C)
    (df_gas : list (station_row C)) (df_pop : list pop_row) s :
  s ∈ all_states df_pop →
  (∀ r, r ∈ drop_duplicates place_id df_gas → state_name r ≠ s) →
  (s, 0%nat, 0%nat, NaN)
    ∈ bar_chart_stations_per_municipality
        (prepare_station_data nan df_gas df_pop).
Proof.
  intros Hs Hnone. unfold bar_chart_stations_per_municipality.
  unfold stations_per_state, mun_per_state.
  rewrite merge_inner_groupby, <- list_fmap_compose.
  apply list_elem_of_fmap. exists s. split.
  2:{ apply elem_of_unique. by apply prepared_states. }
  simpl. rewrite rows_with_prepared by done. unfold state_block, rows_with.
  rewrite (filter_none (λ r, state_name r = s)) by done. done.
Qed.

(* ================================================================== *)
(** * Product availability *)

Lemma nunique_mono {K} `{EqDecision K} (l1 l2 : list (option K)) :
  (∀ k, Some k ∈ l1 → Some k ∈ l2) → (nunique l1 ≤ nunique l2)%nat.
Proof.
  intros Hsub. unfold nunique. apply submseteq_length.
  apply NoDup_submseteq; [apply NoDup_unique|].
  intros k. rewrite !elem_of_unique, !list_elem_of_omap.
  intros ([k'|] & Hin & Hk); simplify_eq/=.
  exists (Some k). split; [|done]. by apply Hsub.
Qed.

Lemma unique_nil_inv {K} `{EqDecision K} (l : list K) : unique l = [] → l = [].
Proof. by destruct l. Qed.

Lemma nunique_zero {R K} `{EqDecision K} (key : R → option K) (df : list R) :
  nunique (key <$> df) = 0%nat ↔ omap key df = [].
Proof.
  unfold nunique.
  replace (omap id (key <$> df)) with (omap key df).
  - split.
    + intros H%length_zero_iff_nil. by apply unique_nil_inv.
    + by intros ->.
  - induction df as [|r df IH]; [done|]. csimpl.
    destruct (key r); csimpl; by rewrite IH.
Qed.

Lemma percentage_bounds (n total : Z) :
  (0 ≤ n ≤ total)%Z → (0 < total)%Z →
  0 ≤ Qc_of_Z n / Qc_of_Z total * Qc_of_Z 100
  ∧ Qc_of_Z n / Qc_of_Z total * Qc_of_Z 100 ≤ Qc_of_Z 100.
Proof.
  intros [Hn Hle] Hpos.
  assert (0 ≤ Qc_of_Z n) as Hn' by (rewrite <- Z2Qc_inj_0; by apply (proj1 (Z2Qc_inj_le _ _))).
  assert (0 < Qc_of_Z total) as Hpos'
    by (rewrite <- Z2Qc_inj_0; by apply (proj1 (Z2Qc_inj_lt _ _))).
  assert (0 ≤ Qc_of_Z 100) as H100
    by (rewrite <- Z2Qc_inj_0; by apply (proj1 (Z2Qc_inj_le _ _))).
  assert (0 ≤ / Qc_of_Z total) as Hinv by (by apply Qclt_le_weak, Qcinv_pos).
  assert (0 ≤ Qc_of_Z n / Qc_of_Z total) as Hfrac
    by (by apply Qcmult_nonneg_nonneg).
  split; [by apply Qcmult_nonneg_nonneg|].
  rewrite <- (Qcmult_1_l (Qc_of_Z 100)) at 2.
  apply Qcmult_le_mono_nonneg_r; [done|].
  rewrite <- (Qcmult_inv_r (Qc_of_Z total)) by (by apply Qclt_not_eq in Hpos').
  apply Qcmult_le_mono_nonneg_r; [done|]. by apply (proj1 (Z2Qc_inj_le _ _)).
Qed.

(** X8.  [product_availability_stats] raises [ZeroDivisionError] exactly when
    no row of the station table carries a [place_id] (an empty table, or
    placeholder rows only), and raises nothing else.  Otherwise the count
    of every fuel is at most the total and its percentage lies between 0
    and 100. *)
Theorem product_availability_stats_total (df_station : list (station_row cell)) :
  (product_availability_stats df_station = inl ZeroDivisionError
   ↔ omap place_id df_station = [])
  ∧ (∀ e, product_availability_stats df_station = inl e
          → e = ZeroDivisionError)
  ∧ ∀ total rows f n pct,
      availability_numbers df_station = inr (total, rows) →
      (f, n, pct) ∈ rows →
      (n ≤ total)%nat ∧ 0 ≤ pct ∧ pct ≤ Qc_of_Z 100.
Proof.
  unfold product_availability_stats, availability_numbers.
  case_bool_decide as Hz.
  - split; [|split]; [|by intros e [= <-]|done].
    split; [intros _|done]. by apply nunique_zero.
  - split; [|split]; [|done|].
    + split; [done|]. intros Hnil. by apply nunique_zero in Hnil.
    + assert (∀ f', (stations_selling f' df_station
                       ≤ nunique (place_id <$> df_station))%nat) as Hle.
      { intros f'. unfold stations_selling. apply nunique_mono. intros k.
        rewrite !list_elem_of_fmap. intros (r & Hk & Hr).
        apply list_elem_of_filter in Hr as [_ Hr]. by exists r. }
      intros total rows f n pct [= <- <-] Hin.
      repeat (apply elem_of_cons in Hin as [[= -> -> ->]|Hin];
              [split; [apply Hle|];
               match goal with
               | |- context [stations_selling ?g _] => specialize (Hle g)
               end;
               apply percentage_bounds; lia|]).
      by apply elem_of_nil in Hin.
Qed.

(* ================================================================== *)
(** * Population against stations *)

Lemma apply_raising_inl {A B} (f : A → py_error + B) (l : list A) e :
  apply_raising f l = inl e → ∃ x, x ∈ l ∧ f x = inl e.
Proof.
  induction l as [|x l IH]; simpl; [done|].
  destruct (f x) as [e'|y] eqn:Ex.
  - intros [= ->]. exists x. split; [by left|done].
  - destruct (apply_raising f l) as [e'|ys]; [|done].
    intros [= ->]. destruct (IH eq_refl) as (x' & Hin & Hx').
    exists x'. split; [by right|done].
Qed.

Lemma apply_raising_inr {A B} (f : A → py_error + B) (l : list A) ys x :
  apply_raising f l = inr ys → x ∈ l → ∃ y, y ∈ ys ∧ f x = inr y.
Proof.
  revert ys. induction l as [|x' l IH]; simpl; intros ys Hres Hin;
    [by apply elem_of_nil in Hin|].
  destruct (f x') as [e'|y'] eqn:Ex; [done|].
  destruct (apply_raising f l) as [e'|ys']; [done|].
  injection Hres as <-. apply elem_of_cons in Hin as [->|Hin].
  - exists y'. split; [by left|done].
  - destruct (IH ys' eq_refl Hin) as (y & Hy & Hfx).
    exists y. split; [by right|done].
Qed.

Lemma elem_of_merge_left_Some {L R K} `{EqDecision K} (lkey : L → K)
    (rkey : R → K) (left : list L) (right : list R) l r :
  l ∈ left → r ∈ right → rkey r = lkey l →
  (l, Some r) ∈ merge_left lkey rkey left right.
Proof.
  intros Hl Hr Hk. unfold merge_left. apply list_elem_of_bind. exists l.
  split; [|done].
  assert (r ∈ rows_with rkey (lkey l) right) as Hin
    by (unfold rows_with; by apply list_elem_of_filter).
  destruct (rows_with rkey (lkey l) right) as [|r0 m] eqn:E;
    [by apply elem_of_nil in Hin|].
  apply list_elem_of_fmap. by exists r.
Qed.

(** The errors of [format_population]. *)
Lemma format_population_error (value : fval) (e : py_error) :
  format_population value = inl e
  ↔ (e = ValueError ∧ value = NaN) ∨ (e = OverflowError ∧ value = NInf).
Proof.
  unfold format_population, ge_const, div_const.
  destruct value as [v| | |].
  - destruct (bool_decide (e6 ≤ v)); cbn;
      (split; [intros [=]|intros [[_ [=]]|[_ [=]]]]).
  - split; [intros [=]|intros [[_ [=]]|[_ [=]]]].
  - split; [intros [= <-]; by right|]. by intros [[_ [=]]|[-> _]].
  - split; [intros [= <-]; by left|]. by intros [[-> _]|[_ [=]]].
Qed.

(** X9.  [scatter_population_vs_stations], on the reconciled stations of
    a population table that is not empty, raises exactly when the
    population of some row of the population table, once its commas are
    removed, is not a number (empty, or a text that is not numeric) or
    is minus infinity.  The error is [ValueError] (from [int(nan)]) only
    if some population is not a number, and [OverflowError] (from
    [int(-inf)]) only if some population is minus infinity; no other
    error is raised.  When it returns, every row of the population table
    has a row of its state with its cleaned population. *)
Theorem scatter_population_vs_stations_error {C} (nan : C)
    (parse_x : string → fval)
    (df_gas : list (station_row C)) (df_pop : list pop_row) :
  df_pop ≠ [] →
  let res := scatter_population_vs_stations parse_x
               (prepare_station_data nan df_gas df_pop) df_pop in
  ((∃ e, res = inl e)
   ↔ ∃ r, r ∈ df_pop
        ∧ (clean_population parse_x (population_2024 r) = NaN
           ∨ clean_population parse_x (population_2024 r) = NInf))
  ∧ (res = inl ValueError →
     ∃ r, r ∈ df_pop ∧ clean_population parse_x (population_2024 r) = NaN)
  ∧ (res = inl OverflowError →
     ∃ r, r ∈ df_pop ∧ clean_population parse_x (population_2024 r) = NInf)
  ∧ res ≠ inl ZeroDivisionError
  ∧ (∀ rows r, res = inr rows → r ∈ df_pop →
       ∃ row, row ∈ rows ∧ sc_state row = entidad_federativa r
            ∧ sc_population row
              = clean_population parse_x (population_2024 r)).
Proof.
  intros _ res. unfold scatter_population_vs_stations in res.
  set (df_station := prepare_station_data nan df_gas df_pop) in *.
  set (step := λ '(s, n, pop), match format_population pop with
                               | inl e => inl e
                               | inr fp => inr _
                               end) in res.
  set (df_merged := _ <$> merge_left _ _ _ _) in res.
  assert (∀ x e, step x = inl e ↔ format_population x.2 = inl e) as Hstep.
  { intros [[s n] v] e; simpl.
    destruct (format_population v); simpl; split; congruence. }
  assert (∀ x v, x ∈ df_merged → x.2 = v →
            ∃ r, r ∈ df_pop
               ∧ clean_population parse_x (population_2024 r) = v) as Hsrc.
  { intros x v Hx Hv.
    apply list_elem_of_fmap in Hx as ([[s n] o] & -> & Hin).
    apply elem_of_merge_left in Hin as [Hl Ho]. simpl in *.
    destruct o as [r|].
    - exists r. split; [tauto|done].
    - destruct Ho. unfold stations_per_state, groupby in Hl.
      apply list_elem_of_fmap in Hl as (k & [= -> _] & Hk).
      rewrite elem_of_unique in Hk. unfold df_station in Hk.
      rewrite prepared_states in Hk.
      unfold all_states in Hk. by rewrite elem_of_unique in Hk. }
  assert (∀ r, r ∈ df_pop →
            ∃ n, (entidad_federativa r, n,
                  clean_population parse_x (population_2024 r))
                 ∈ df_merged) as Hrow.
  { intros r Hr.
    assert (entidad_federativa r ∈ all_states df_pop) as Hs.
    { apply elem_of_unique, list_elem_of_fmap. by exists r. }
    exists (nunique (place_id
                       <$> rows_with state_name (entidad_federativa r) df_station)).
    apply list_elem_of_fmap.
    exists ((entidad_federativa r,
             nunique (place_id
                        <$> rows_with state_name (entidad_federativa r)
                              df_station)), Some r).
    split; [done|]. apply elem_of_merge_left_Some; [|done|done].
    unfold stations_per_state, groupby. apply list_elem_of_fmap.
    exists (entidad_federativa r). split; [done|].
    apply elem_of_unique. by apply prepared_states. }
  assert (∀ e, res = inl e →
            (e = ValueError
             ∧ ∃ r, r ∈ df_pop
                  ∧ clean_population parse_x (population_2024 r) = NaN)
            ∨ (e = OverflowError
               ∧ ∃ r, r ∈ df_pop
                    ∧ clean_population parse_x (population_2024 r) = NInf))
    as Herr.
  { intros e (x & Hx & Hfx)%apply_raising_inl.
    apply Hstep, format_population_error in Hfx as [[-> Hv]|[-> Hv]].
    - left. split; [done|]. by apply (Hsrc x NaN).
    - right. split; [done|]. by apply (Hsrc x NInf). }
  split; [|split; [|split; [|split]]].
  - split.
    + intros [e He]. destruct (Herr e He) as [[_ (r & Hr & Hv)]|[_ (r & Hr & Hv)]];
        exists r; tauto.
    + intros (r & Hr & Hv). destruct (Hrow r Hr) as [n Hin].
      destruct res as [e|rows] eqn:Eres; [by exists e|].
      destruct (apply_raising_inr _ _ _ _ Eres Hin) as (y & _ & Hy).
      assert (∃ e, step (entidad_federativa r, n,
                         clean_population parse_x (population_2024 r))
                   = inl e) as [e He].
      { destruct Hv as [Hv|Hv].
        - exists ValueError. apply Hstep, format_population_error. by left.
        - exists OverflowError. apply Hstep, format_population_error.
          by right. }
      congruence.
  - intros He. by destruct (Herr _ He) as [[_ ?]|[? _]].
  - intros He. by destruct (Herr _ He) as [[? _]|[_ ?]].
  - intros He. by destruct (Herr _ He) as [[? _]|[? _]].
  - intros rows r Hres Hr. destruct (Hrow r Hr) as [n Hin].
    destruct (apply_raising_inr _ _ _ _ Hres Hin) as (y & Hy & Hfy).
    exists y. split; [done|]. simpl in Hfy.
    destruct (format_population _); [done|]. by injection Hfy as <-.
Qed.

(* ================================================================== *)
(** * Volume totals *)

Lemma filter_fmap {A B} (f : A → B) (P : B → Prop) `{∀ y, Decision (P y)}
    (l : list A) :
  filter P (f <$> l) = f <$> filter (λ x, P (f x)) l.
Proof.
  induction l as [|x l IH]; [done|]. rewrite fmap_cons.
  destruct (decide (P (f x))).
  - rewrite !filter_cons_True by done. by rewrite fmap_cons, IH.
  - rewrite !filter_cons_False by done. done.
Qed.

Lemma series_sum_fmap {A} (g : A → option Qc) (l : list A) :
  series_sum (g <$> l) = Qcsum ((λ x, default 0 (g x)) <$> l).
Proof.
  unfold series_sum, dropna. induction l as [|x l IH]; [done|]. csimpl.
  destruct (g x); csimpl; rewrite IH; [done|ring].
Qed.


Lemma total_by_fuel_volume_of (df_volume : list (vol_row (option Qc))) k v :
  (k, v) ∈ total_by_fuel df_volume → v = volume_of df_volume k.
Proof.
  unfold total_by_fuel, groupby. rewrite list_elem_of_fmap.
  by intros (k' & [= -> ->] & _).
Qed.


Lemma replace_sub_producto_diesel (s : string) :
  replace_sub_producto s = "Diesel" ↔ s ∈ diesel_labels.
Proof.
  unfold replace_sub_producto, diesel_labels.
  rewrite !elem_of_cons, elem_of_nil.
  repeat case_bool_decide; subst; tauto.
Qed.

(** X12.  The diesel sub-products are collapsed: none of the three raw diesel
    labels is left among the fuel totals, and the total listed under
    "Diesel" is the volume of the rows of 2024 that carry any of the four
    diesel labels. *)
Theorem diesel_sub_products_collapsed (df_volume : list (vol_row (option Qc))) :
  (∀ k v, (k, v) ∈ total_by_fuel df_volume →
          k ∉ ["Diésel Automotriz"; "DUBA"; "Diésel Agricola-Marino"])
  ∧ (∀ v, ("Diesel", v) ∈ total_by_fuel df_volume →
          v = series_sum
                (volumen_vendido
                   <$> filter (λ r, anio r = 2024%Z
                                    ∧ sub_producto r ∈ diesel_labels)
                              df_volume)).
Proof.
  split.
  - intros k v. unfold total_by_fuel, groupby.
    rewrite list_elem_of_fmap. intros (k' & [= -> _] & Hk).
    rewrite elem_of_unique in Hk. unfold df_volume_agg in Hk.
    rewrite <- list_fmap_compose in Hk.
    apply list_elem_of_fmap in Hk as (r & -> & _). simpl.
    rewrite !elem_of_cons, elem_of_nil. unfold replace_sub_producto.
    repeat case_bool_decide; intros [?|[?|[?|[]]]]; done.
  - intros v ->%total_by_fuel_volume_of. unfold volume_of, rows_with.
    unfold df_volume_agg. rewrite filter_fmap, <- list_fmap_compose.
    rewrite list_filter_filter. simpl. f_equal.
    erewrite list_filter_iff; [done|].
    intros r. simpl. rewrite replace_sub_producto_diesel. tauto.
Qed.

Lemma Qcsum_indicator_opt {K} `{EqDecision K} (k : K) (x : Qc) (S : list K) :
  NoDup S →
  Qcsum ((λ s, if decide (k = s) then x else 0) <$> S)
  = if decide (k ∈ S) then x else 0.
Proof.
  intros HS. destruct (decide (k ∈ S)) as [Hin|Hin].
  - by apply Qcsum_indicator.
  - rewrite (list_fmap_ext _ (λ _, 0) S); [apply Qcsum_zero|].
    intros _ s Hs%list_elem_of_lookup_2. simpl.
    apply decide_False. congruence.
Qed.

(** X13.  The total market value is the sum, over the three fuels that have a
    national average price, of the 2024 volume sold under the fuel's
    label times that price.  A sub-product with any other label, and a
    fuel without a price, add nothing to it. *)
Theorem total_market_value_formula (df_volume : list (vol_row (option Qc)))
    (df_price : list (station_row (option Qc))) :
  total_market_value df_volume df_price
  = Qcsum ((λ f, match national_avg f df_price with
                 | Some p => volume_of df_volume (fuel_label f) * p
                 | None => 0
                 end) <$> fuels).
Proof.
  unfold total_market_value, market_value_2024, total_by_fuel, groupby.
  rewrite <- !list_fmap_compose, series_sum_fmap.
  set (keys := unique (sub_producto <$> df_volume_agg df_volume)).
  set (G := λ k, default 0 (mul_f (Some (volume_of df_volume k))
                                  (price_map df_price k))).
  assert (NoDup keys) as Hnd by apply NoDup_unique.
  assert (∀ k, k ∉ keys → G k = 0) as Hout.
  { intros k Hk. unfold G, volume_of. unfold keys in Hk.
    rewrite elem_of_unique in Hk. apply rows_with_nil_iff in Hk. rewrite Hk.
    destruct (price_map df_price k); simpl; [|done].
    change (series_sum []) with 0. ring. }
  transitivity (Qcsum (G <$> keys)); [done|].
  rewrite (list_fmap_ext G
             (λ k, (if decide ("Regular" = k) then G "Regular" else 0)
                   + ((if decide ("Premium" = k) then G "Premium" else 0)
                      + (if decide ("Diesel" = k) then G "Diesel" else 0)))
             keys).
  2:{ intros _ k _. simpl.
      destruct (decide ("Regular" = k)) as [<-|HR];
        [rewrite !decide_False by done; ring|].
      destruct (decide ("Premium" = k)) as [<-|HP];
        [rewrite !decide_False by done; ring|].
      destruct (decide ("Diesel" = k)) as [<-|HD]; [ring|].
      unfold G, price_map. rewrite !bool_decide_eq_false_2 by done.
      simpl. ring. }
  rewrite !Qcsum_add, !Qcsum_indicator_opt by done.
  assert (∀ t, (if decide (t ∈ keys) then G t else 0) = G t) as Hin.
  { intros t. destruct (decide (t ∈ keys)); [done|]. symmetry. by apply Hout. }
  rewrite !Hin. unfold fuels. csimpl. unfold Qcsum. simpl.
  unfold G, price_map. simpl.
  destruct (national_avg regular_price df_price),
           (national_avg premium_price df_price),
           (national_avg diesel_price df_price); simpl; ring.
Qed.

(* ================================================================== *)
(** * Historical volumes *)

(** X16.  In the historical tables, the national total of a year is the sum of
    the state totals of that year, and the year 2025 is absent from
    both. *)
Theorem national_total_is_sum_of_states (df_volume : list (vol_row (option Qc))) :
  (∀ y v, (y, v) ∈ df_national df_volume →
          Qcsum (snd <$> filter (λ row, row.1.1 = y) (df_states df_volume)) = v)
  ∧ (∀ y v, (y, v) ∈ df_national df_volume → y ≠ 2025%Z)
  ∧ (∀ y s v, ((y, s), v) ∈ df_states df_volume → y ≠ 2025%Z).
Proof.
  set (F := df_filtered df_volume).
  assert (∀ r, r ∈ F → anio r ≠ 2025%Z) as Hyear.
  { intros r. unfold F, df_filtered. rewrite list_elem_of_filter. tauto. }
  split; [|split].
  - intros y v. unfold df_national, df_states, groupby. fold F.
    rewrite list_elem_of_fmap. intros (y' & [= -> ->] & _).
    set (key2 := λ r : vol_row (option Qc), (anio r, vol_entidad r)).
    rewrite (filter_fmap _ (λ row : Z * string * Qc, row.1.1 = y')).
    rewrite <- list_fmap_compose. simpl.
    set (keys := filter (λ k : Z * string, k.1 = y') (unique (key2 <$> F))).
    rewrite (list_fmap_ext _
               (λ k, Qcsum ((λ r, default 0 (volumen_vendido r))
                              <$> rows_with key2 k (rows_with anio y' F)))
               keys).
    + rewrite Qcsum_by_key.
      * by rewrite series_sum_fmap.
      * apply NoDup_filter, NoDup_unique.
      * intros r Hr. unfold rows_with in Hr.
        apply list_elem_of_filter in Hr as [Hy Hr].
        apply list_elem_of_filter. split; [done|].
        apply elem_of_unique, list_elem_of_fmap. by exists r.
    + intros _ k Hk%list_elem_of_lookup_2. simpl.
      apply list_elem_of_filter in Hk as [Hy _].
      rewrite series_sum_fmap. f_equal. f_equal. unfold rows_with.
      rewrite list_filter_filter. apply list_filter_iff.
      intros r. unfold key2. split; [|tauto].
      intros <-. simpl in Hy. done.
  - intros y v. unfold df_national, groupby. fold F.
    rewrite list_elem_of_fmap. intros (y' & [= -> _] & Hy).
    rewrite elem_of_unique in Hy. apply list_elem_of_fmap in Hy as (r & -> & Hr).
    by apply Hyear.
  - intros y s v. unfold df_states, groupby. fold F.
    rewrite list_elem_of_fmap. intros (k & [= <- _] & Hk).
    rewrite elem_of_unique in Hk.
    apply list_elem_of_fmap in Hk as (r & [= -> _] & Hr).
    by apply Hyear.
Qed.

(* ================================================================== *)
(** * Small volumes *)

Lemma Qfloor_unit (z : Qc) : 0 ≤ z → z < 1 → Qfloor z = 0%Z.
Proof.
  intros H0 H1.
  assert (0 ≤ Qfloor z)%Z as Hlo.
  { change 0%Z with (Qfloor 0). by apply Qfloor_resp_le. }
  assert (Qfloor z < 1)%Z as Hhi.
  { rewrite Zlt_Qlt. eapply Qle_lt_trans; [apply Qfloor_le|]. exact H1. }
  lia.
Qed.

Lemma fixed2_small (y : Qc) : 0 ≤ y → y < dec 1 200 → fixed2 y = "0.00".
Proof.
  intros H0 H1. unfold fixed2.
  rewrite (bool_decide_eq_false_2 (y < 0)) by (by apply Qcle_not_lt).
  assert (0 ≤ y * Qc_of_Z 100) as Hz0.
  { apply Qcmult_nonneg_nonneg; [done|]. compute_done. }
  assert (y * Qc_of_Z 100 < dec 1 2) as Hz1.
  { replace (dec 1 2) with (dec 1 200 * Qc_of_Z 100)
      by (apply Qc_is_canon; reflexivity).
    apply Qcmult_lt_mono_pos_r; [|done]. compute_done. }
  assert (round_half_even (y * Qc_of_Z 100) = 0%Z) as ->; [|done].
  unfold round_half_even.
  rewrite Qfloor_unit; [|done|].
  - rewrite Z2Qc_inj_0. replace (y * Qc_of_Z 100 - 0) with (y * Qc_of_Z 100) by ring.
    by rewrite bool_decide_eq_true_2.
  - eapply Qclt_trans; [done|]. compute_done.
Qed.

(** X15.  A volume of at least 0 and less than 5000 liters is written
    "0.00M liters": there is no tier below millions.  In particular the
    average volume per station of a state without stations, which is 0,
    is written so. *)
Theorem format_volume_small {C} (df_volume : list (vol_row (option Qc)))
    (df_station : list (station_row C)) :
  (∀ q, 0 ≤ q → q < Qc_of_Z 5000 →
        format_volume (Fin q) true = "0.00M liters")
  ∧ (∀ row, row ∈ merged_state_vol df_volume df_station →
            count_stations row = 0%nat →
            format_volume (avg_volume_per_station row) true = "0.00M liters").
Proof.
  assert (∀ q, 0 ≤ q → q < Qc_of_Z 5000 →
               format_volume (Fin q) true = "0.00M liters") as Hsmall.
  { intros q H0 H1. unfold format_volume, ge_const.
    rewrite bool_decide_eq_false_2.
    2:{ apply Qclt_not_le. eapply Qclt_trans; [done|]. compute_done. }
    simpl. rewrite fixed2_small.
    - done.
    - apply Qcmult_nonneg_nonneg; [done|]. compute_done.
    - replace (dec 1 200) with (Qc_of_Z 5000 / e6)
        by (apply Qc_is_canon; reflexivity).
      apply Qcmult_lt_mono_pos_r; [|done]. compute_done. }
  split; [done|].
  intros row. unfold merged_state_vol, stations_per_state.
  rewrite merge_left_groupby, <- list_fmap_compose, list_elem_of_fmap.
  intros ([s v] & -> & _). simpl. intros ->. by apply Hsmall.
Qed.

(* ================================================================== *)
(** * The keys of the tables *)

(** X17.  Each state-level price table has exactly one row per roster state, in
    roster order, whatever the stations are: a roster state without
    prices is kept, and a state outside the roster is not added. *)
Theorem state_price_tables_complete (f : fuel)
    (df_price : list (station_row (option Qc))) (df_pop : list pop_row) :
  fst <$> display_state_price_triplet f df_price df_pop = all_states df_pop
  ∧ dev_key <$> display_state_price_deviation_triplet f df_price df_pop
    = all_states df_pop
  ∧ NoDup (all_states df_pop).
Proof.
  split; [|split].
  - rewrite display_state_price_triplet_rows, <- list_fmap_compose.
    apply list_fmap_id.
  - rewrite display_state_price_deviation_triplet_rows, <- list_fmap_compose.
    apply list_fmap_id.
  - apply NoDup_unique.
Qed.

Lemma groupby_keys {R K V} `{EqDecision K} (key : R → K) (agg : list R → V)
    (df : list R) :
  fst <$> groupby key agg df = unique (key <$> df).
Proof. unfold groupby. rewrite <- list_fmap_compose. apply list_fmap_id. Qed.

Lemma df_volume_agg_2024 (df_volume : list (vol_row (option Qc))) :
  filter (λ r, anio r = 2024%Z) (df_volume_agg df_volume)
  = df_volume_agg df_volume.
Proof.
  unfold df_volume_agg. rewrite filter_fmap. simpl. f_equal.
  by rewrite list_filter_filter_l.
Qed.

Lemma df_volume_agg_states (df_volume : list (vol_row (option Qc))) :
  vol_entidad <$> df_volume_agg df_volume
  = vol_entidad <$> filter (λ r, anio r = 2024%Z) df_volume.
Proof. unfold df_volume_agg. by rewrite <- list_fmap_compose. Qed.

Lemma elem_of_merge_left_fst {L R K} `{EqDecision K} (lkey : L → K)
    (rkey : R → K) (left : list L) (right : list R) l :
  l ∈ fst <$> merge_left lkey rkey left right ↔ l ∈ left.
Proof.
  rewrite list_elem_of_fmap. split.
  - intros ([l' o] & -> & Hin). by apply elem_of_merge_left in Hin as [? _].
  - intros Hl. unfold merge_left.
    destruct (rows_with rkey (lkey l) right) as [|r0 m] eqn:E.
    + exists (l, None). split; [done|]. apply list_elem_of_bind.
      exists l. rewrite E. split; [by left|done].
    + exists (l, Some r0). split; [done|]. apply list_elem_of_bind.
      exists l. rewrite E. split; [by left|done].
Qed.

(** X14.  The volume tables are keyed by the states of the 2024 volume
    records, not by the roster.  The table of volume per station has
    exactly one row for each state with a volume record of 2024; the
    per-capita table has a row for the same states and no others.  A
    roster state without sales in 2024 is in neither. *)
Theorem volume_tables_keys {C} (parse_number : string → option Qc)
    (df_volume : list (vol_row (option Qc)))
    (df_station : list (station_row C)) (df_pop : list pop_row) :
  sv_entidad <$> merged_state_vol df_volume df_station
  = unique (vol_entidad <$> filter (λ r, anio r = 2024%Z) df_volume)
  ∧ ∀ s, s ∈ pc_state <$> per_capita_data parse_number df_volume df_pop
         ↔ s ∈ vol_entidad <$> filter (λ r, anio r = 2024%Z) df_volume.
Proof.
  split.
  - unfold merged_state_vol, stations_per_state.
    rewrite merge_left_groupby, <- !list_fmap_compose.
    rewrite <- df_volume_agg_states.
    rewrite <- (groupby_keys vol_entidad
                  (λ rows, series_sum (volumen_vendido <$> rows))).
    apply list_fmap_ext. by intros _ [s v] _.
  - intros s. unfold per_capita_data.
    rewrite df_volume_agg_2024, <- df_volume_agg_states.
    rewrite <- (elem_of_unique (vol_entidad <$> df_volume_agg df_volume)).
    rewrite <- (groupby_keys vol_entidad
                  (λ rows, series_sum (volumen_vendido <$> rows))).
    fold (vol_by_state (df_volume_agg df_volume)).
    set (left := vol_by_state (df_volume_agg df_volume)).
    set (right := df_pop_clean parse_number df_pop).
    rewrite !list_elem_of_fmap. split.
    + intros (row & -> & Hrow).
      apply list_elem_of_fmap in Hrow as ([[s' v] o] & -> & Hin).
      exists (s', v). split; [done|].
      apply (elem_of_merge_left_fst fst fst left right).
      apply list_elem_of_fmap. by exists ((s', v), o).
    + intros ([s' v] & -> & Hin).
      apply (elem_of_merge_left_fst fst fst left right) in Hin.
      apply list_elem_of_fmap in Hin as ([[s'' v'] o] & [= <- <-] & Hin).
      exists (mk_per_capita s' v (o ≫= snd) (np_divide (Some v) (o ≫= snd))).
      split; [done|]. apply list_elem_of_fmap.
      exists ((s', v), o). split; [done|exact Hin].
Qed.

(* ================================================================== *)
(** * Completeness of the state-level tables *)

Lemma merged_state_vol_states {C} (df_volume : list (vol_row (option Qc)))
    (df_station : list (station_row C)) (s : string) :
  s ∈ sv_entidad <$> merged_state_vol df_volume df_station
  ↔ s ∈ vol_entidad <$> filter (λ r, anio r = 2024%Z) df_volume.
Proof.
  unfold merged_state_vol, stations_per_state.
  rewrite merge_left_groupby, <- !list_fmap_compose.
  rewrite <- df_volume_agg_states.
  rewrite <- (elem_of_unique (vol_entidad <$> df_volume_agg df_volume)).
  rewrite <- (groupby_keys vol_entidad
                (λ rows, series_sum (volumen_vendido <$> rows))).
  rewrite !list_elem_of_fmap. split.
  - intros ([s' v] & -> & Hin). by exists (s', v).
  - intros ([s' v] & -> & Hin). by exists (s', v).
Qed.

Lemma per_capita_data_states (parse_number : string → option Qc)
    (df_volume : list (vol_row (option Qc))) (df_pop : list pop_row)
    (s : string) :
  s ∈ pc_state <$> per_capita_data parse_number df_volume df_pop
  ↔ s ∈ vol_entidad <$> filter (λ r, anio r = 2024%Z) df_volume.
Proof.
  unfold per_capita_data.
  rewrite df_volume_agg_2024, <- df_volume_agg_states.
  rewrite <- (elem_of_unique (vol_entidad <$> df_volume_agg df_volume)).
  rewrite <- (groupby_keys vol_entidad
                (λ rows, series_sum (volumen_vendido <$> rows))).
  fold (vol_by_state (df_volume_agg df_volume)).
  set (left := vol_by_state (df_volume_agg df_volume)).
  set (right := df_pop_clean parse_number df_pop).
  rewrite !list_elem_of_fmap. split.
  - intros (row & -> & Hrow).
    apply list_elem_of_fmap in Hrow as ([[s' v] o] & -> & Hin).
    exists (s', v). split; [done|].
    apply (elem_of_merge_left_fst fst fst left right).
    apply list_elem_of_fmap. by exists ((s', v), o).
  - intros ([s' v] & -> & Hin).
    apply (elem_of_merge_left_fst fst fst left right) in Hin.
    apply list_elem_of_fmap in Hin as ([[s'' v'] o] & [= <- <-] & Hin).
    exists (mk_per_capita s' v (o ≫= snd) (np_divide (Some v) (o ≫= snd))).
    split; [done|]. apply list_elem_of_fmap.
    exists ((s', v), o). split; [done|exact Hin].
Qed.

(** C5 (amended).  Every state of the canonical roster has an entry in
    the stations-per-state tables computed from the reconciled stations:
    the keys of the bar-chart table are exactly the roster, in roster
    order, and each roster state is listed with one and the same count
    both there and in the grouped counts [stations_per_state]; a state
    without station records is listed with the count 0.  The state-level
    volume tables are not keyed by the roster: the table of volume per
    station and the per-capita table have a row for a state exactly when
    the state has a volume record of 2024. *)
Theorem stations_per_state_complete {C} (nan : C)
    (parse_number : string → option Qc)
    (df_gas : list (station_row C)) (df_pop : list pop_row)
    (df_volume : list (vol_row (option Qc))) :
  let df_station := prepare_station_data nan df_gas df_pop in
  fst <$> bar_chart_stations_by_state df_station df_pop = all_states df_pop
  ∧ (∀ s, s ∈ entidad_federativa <$> df_pop →
       ∃ n, (s, n) ∈ bar_chart_stations_by_state df_station df_pop
          ∧ (s, n) ∈ stations_per_state df_station
          ∧ ((∀ r, r ∈ df_gas → state_name r ≠ s) → n = 0%nat))
  ∧ (∀ s, s ∈ sv_entidad <$> merged_state_vol df_volume df_station
          ↔ s ∈ vol_entidad <$> filter (λ r, anio r = 2024%Z) df_volume)
  ∧ (∀ s, s ∈ pc_state <$> per_capita_data parse_number df_volume df_pop
          ↔ s ∈ vol_entidad <$> filter (λ r, anio r = 2024%Z) df_volume).
Proof.
  intros df_station. split; [|split; [|split]].
  - rewrite bar_chart_stations_by_state_rows, <- list_fmap_compose.
    apply list_fmap_id.
  - intros s Hs. apply (elem_of_unique _ s) in Hs. fold (all_states df_pop) in Hs.
    exists (nunique (place_id <$> rows_with state_name s df_station)).
    split; [|split].
    + rewrite bar_chart_stations_by_state_rows.
      apply list_elem_of_fmap. by exists s.
    + unfold stations_per_state, groupby. apply list_elem_of_fmap.
      exists s. split; [done|]. apply elem_of_unique.
      by apply prepared_states.
    + intros Hnone. unfold df_station.
      rewrite rows_with_prepared by done. unfold state_block, rows_with.
      rewrite (filter_none (λ r, state_name r = s)); [done|].
      intros r Hr. apply Hnone. by apply elem_of_drop_duplicates in Hr.
  - intros s. apply merged_state_vol_states.
  - intros s. apply per_capita_data_states.
Qed.


(** C5 (as stated) fails for the state-level volume tables: Jalisco is
    a state of the roster, with two stations, and has no volume record
    of 2024; it has no row in the table of volume per station nor in the
    per-capita table. *)
Lemma roster_state_dropped_from_volume_tables :
  "Jalisco" ∈ all_states Sample.df_pop
  ∧ ("Jalisco" ∉ sv_entidad
                   <$> merged_state_vol Sample.df_volume Sample.df_price)
  ∧ ("Jalisco" ∉ pc_state
                   <$> per_capita_data plain_decimal Sample.df_volume
                         Sample.df_pop).
Proof. compute_done. Qed.

Lemma stations_per_state_complete_witness :
  "Colima" ∈ entidad_federativa <$> Sample.df_pop
  ∧ ("Colima", 0%nat) ∈ bar_chart_stations_by_state
       (prepare_station_data CEmpty Sample.df_gas_jalisco Sample.df_pop)
       Sample.df_pop.
Proof.
  split; [compute_done|].
  destruct (proj1 (proj2 (stations_per_state_complete CEmpty plain_decimal
                            Sample.df_gas_jalisco Sample.df_pop
                            Sample.df_volume)) "Colima")
    as (n & Hn & _ & Hzero); [compute_done|].
  rewrite Hzero in Hn; [done|].
  intros r Hr. apply list_elem_of_singleton in Hr as ->. done.
Defined.


(* ================================================================== *)
(** * Instances on the sample tables *)

Lemma prepare_station_data_rows_witness :
  placeholder CEmpty "Colima"
    ∈ prepare_station_data CEmpty Sample.df_gas_jalisco Sample.df_pop.
Proof.
  apply (prepare_station_data_rows CEmpty Sample.df_gas_jalisco Sample.df_pop).
  right. exists "Colima". split; [compute_done|]. split; [done|].
  intros r Hr. apply list_elem_of_singleton in Hr as ->. done.
Defined.

Lemma prepare_station_data_counts_witness :
  "Jalisco" ∈ all_states Sample.df_pop
  ∧ ("Jalisco", 2%nat)
      ∈ stations_per_state
          (prepare_station_data CEmpty Sample.df_gas Sample.df_pop).
Proof.
  split; [compute_done|].
  apply (prepare_station_data_counts CEmpty Sample.df_gas Sample.df_pop
           "Jalisco"); [|compute_done].
  intros r r' Hr Hr' _ Heq.
  repeat (apply elem_of_cons in Hr as [->|Hr]);
    try (by apply elem_of_nil in Hr);
    repeat (apply elem_of_cons in Hr' as [->|Hr']);
    try (by apply elem_of_nil in Hr'); done.
Defined.

Lemma prepare_price_data_cells_witness :
  ∃ r', prepare_price_data_x extended_decimal
          (prepare_station_data CEmpty Sample.df_gas Sample.df_pop) !! 1%nat
        = Some r'
      ∧ price premium_price r' = Fin (Qc_of_Z 25).
Proof.
  destruct (prepare_price_data_cells extended_decimal
              (prepare_station_data CEmpty Sample.df_gas Sample.df_pop) 1
              (Sample.station "p2" "Jalisco" (CText "N/D") (Sample.num 25)
                 (CText "24.50")) eq_refl)
    as (r' & Hr' & _ & Hcells).
  exists r'. split; [done|].
  apply (proj2 (Hcells premium_price)); [|done|split; compute_done].
  apply (proj1 (Forall_forall _ _)). compute_done.
Defined.

Lemma remove_price_outliers_comm_witness :
  regular_price ≠ premium_price
  ∧ remove_price_outliers
      (remove_price_outliers Sample.df_five regular_price) premium_price
    = remove_price_outliers
        (remove_price_outliers Sample.df_five premium_price) regular_price.
Proof.
  split; [done|].
  by apply (remove_price_outliers_comm Sample.df_five).
Defined.


Lemma product_availability_stats_total_witness :
  product_availability_stats
    (prepare_station_data CEmpty [] Sample.df_pop)
  = inl ZeroDivisionError.
Proof.
  apply (product_availability_stats_total
           (prepare_station_data CEmpty [] Sample.df_pop)).
  reflexivity.
Defined.

Lemma scatter_population_vs_stations_error_witness :
  Sample2.df_pop_inf ≠ []
  ∧ scatter_population_vs_stations extended_decimal
      (prepare_station_data CEmpty Sample.df_gas Sample2.df_pop_inf)
      Sample2.df_pop_inf
    = inl OverflowError
  ∧ ∃ r, r ∈ Sample2.df_pop_inf
       ∧ clean_population extended_decimal (population_2024 r) = NInf.
Proof.
  split; [done|]. split; [compute_done|].
  apply (scatter_population_vs_stations_error CEmpty extended_decimal
           Sample.df_gas Sample2.df_pop_inf); [done|compute_done].
Defined.

Lemma stations_per_municipality_empty_state_witness :
  "Colima" ∈ all_states Sample.df_pop
  ∧ ("Colima", 0%nat, 0%nat, NaN)
      ∈ bar_chart_stations_per_municipality
          (prepare_station_data CEmpty Sample.df_gas_jalisco Sample.df_pop).
Proof.
  split; [compute_done|].
  apply (stations_per_municipality_empty_state CEmpty Sample.df_gas_jalisco
           Sample.df_pop "Colima"); [compute_done|].
  intros r Hr. apply list_elem_of_singleton in Hr as ->. done.
Defined.


Lemma diesel_sub_products_collapsed_witness :
  ("Diesel", Qc_of_Z 1500) ∈ total_by_fuel Sample2.df_volume
  ∧ Qc_of_Z 1500
    = series_sum
        (volumen_vendido
           <$> filter (λ r, anio r = 2024%Z ∧ sub_producto r ∈ diesel_labels)
                      Sample2.df_volume).
Proof.
  split; [compute_done|].
  apply (diesel_sub_products_collapsed Sample2.df_volume). compute_done.
Defined.

Lemma format_volume_small_witness :
  format_volume (Fin (Qc_of_Z 4999)) true = "0.00M liters".
Proof.
  apply (format_volume_small Sample2.df_volume Sample.df_price); compute_done.
Defined.

Lemma national_total_is_sum_of_states_witness :
  (2024%Z, Qc_of_Z 5000) ∈ df_national Sample2.df_volume
  ∧ Qcsum (snd <$> filter (λ row, row.1.1 = 2024%Z)
                     (df_states Sample2.df_volume))
    = Qc_of_Z 5000.
Proof.
  split; [compute_done|].
  apply (national_total_is_sum_of_states Sample2.df_volume). compute_done.
Defined.
